(** * The frontend server configuration loader (appengine/server/config.go)

    A shallow embedding of [readConfig] and of the declarations it uses:
    the [appConfig] struct with its JSON tags, the package-level [config]
    variable, and the part of Go's [os] and [encoding/json] packages that
    [readConfig] calls.

    Go values are represented as follows.
    - A Go [string] is a [string] (a sequence of bytes).
    - A Go [map[string]string] is an [option (gmap string string)]:
      [None] is the nil map, [Some m] an allocated map.
    - A Go [error] is an [option Error]: [None] is the nil error.
    - Package-level variables, the file system and the log of file
      operations are the fields of the record [World]; a Go function is a
      state transformer over it. *)

From Stdlib Require Import ZArith Ascii String.
From stdpp Require Import gmap strings list fin_maps sorting.

Local Open Scope string_scope.

(** ** JSON values

    The decoder works in two phases: it first reads one complete JSON value
    from the stream, checking its syntax, and only then stores it into the
    target.  The second phase is a function of the value read, which is
    what this type represents.  Strings and object keys are the unquoted
    texts; the members of an object are kept in document order, duplicates
    included. *)
Module Json.

#[local] Unset Elimination Schemes.
Inductive json : Type :=
| JNull
| JBool (b : bool)
| JNumber (literal : string)
| JString (s : string)
| JArray (elems : list json)
| JObject (members : list (string * json)).
#[local] Set Elimination Schemes.

(** The word [UnmarshalTypeError.Value] uses for a JSON value that does not
    fit its target. *)
Definition describe (j : json) : string :=
  match j with
  | JNull => "null"
  | JBool _ => "bool"
  | JNumber _ => "number"
  | JString _ => "string"
  | JArray _ => "array"
  | JObject _ => "object"
  end.

End Json.
Export Json.

(** ** Errors *)

Inductive Errno : Type := ENOENT | EACCES | EISDIR | EMFILE | EIO.

(** The Go types a JSON value is stored into while decoding [appConfig]. *)
Inductive GoType : Type :=
| TString               (* string *)
| TMapStringString      (* map[string]string *)
| TAppConfig.           (* server.appConfig *)

Inductive Error : Type :=
| PathError (Op Path : string) (Err : Errno)      (* *os.PathError *)
| SyntaxError (msg : string) (Offset : Z)         (* *json.SyntaxError *)
| EOF                                             (* io.EOF *)
| ErrUnexpectedEOF                                (* io.ErrUnexpectedEOF *)
| ErrInvalid                                      (* os.ErrInvalid *)
| UnmarshalTypeError (Value : string) (Type_ : GoType).
                                                  (* *json.UnmarshalTypeError *)

(** Go's [error] interface value; [None] is [nil]. *)
Abbreviation error := (option Error).

Global Instance Errno_eq_dec : EqDecision Errno.
Proof. solve_decision. Defined.
Global Instance GoType_eq_dec : EqDecision GoType.
Proof. solve_decision. Defined.
Global Instance Error_eq_dec : EqDecision Error.
Proof. solve_decision. Defined.

(** ** Case-insensitive matching of object keys (encoding/json, fold.go)

    A key of the document selects the struct field whose JSON name is equal
    to it, or else equal to it under ASCII case folding, where in addition
    the Kelvin sign (U+212A) folds to [k] and the long s (U+017F) to [s]. *)
Module Fold.

Definition byte_of (n : N) : ascii := ascii_of_N n.
Definition code (b : ascii) : N := N_of_ascii b.

(** [b & caseMask], with [caseMask = ^byte(0x20)]. *)
Definition upper (b : ascii) : ascii := byte_of (N.land (code b) 223).

Definition isUpperLetter (b : ascii) : bool :=
  (65 <=? code b)%N && (code b <=? 90)%N.

(** [b >= utf8.RuneSelf] *)
Definition nonASCII (b : ascii) : bool := (128 <=? code b)%N.

Definition kelvin : string :=
  String (byte_of 226) (String (byte_of 132) (String (byte_of 170) "")).
Definition smallLongEss : string :=
  String (byte_of 197) (String (byte_of 191) "").

(** [equalFoldRight s t]: [s] is ASCII and holds a [k] or an [s]. *)
Fixpoint equalFoldRight (s t : string) : bool :=
  match s with
  | "" => match t with "" => true | _ => false end
  | String sb s' =>
      match t with
      | "" => false
      | String tb t' =>
          if negb (nonASCII tb) then
            if Ascii.eqb sb tb then equalFoldRight s' t'
            else if isUpperLetter (upper sb) then
                   if Ascii.eqb (upper sb) (upper tb) then equalFoldRight s' t'
                   else false
                 else false
          else
            (* t starts a multi-byte rune: only the Kelvin sign and the
               long s are accepted, against k/K and s/S *)
            if Ascii.eqb (upper sb) "S"%char then
              match t with
              | String b1 (String b2 t'') =>
                  if String.eqb (String b1 (String b2 "")) smallLongEss
                  then equalFoldRight s' t'' else false
              | _ => false
              end
            else if Ascii.eqb (upper sb) "K"%char then
              match t with
              | String b1 (String b2 (String b3 t'')) =>
                  if String.eqb (String b1 (String b2 (String b3 ""))) kelvin
                  then equalFoldRight s' t'' else false
              | _ => false
              end
            else false
      end
  end.

(** [asciiEqualFold s t]: [s] is ASCII with a non-letter, no [k], no [s]. *)
Fixpoint asciiEqualFold (s t : string) : bool :=
  match s, t with
  | "", "" => true
  | String sb s', String tb t' =>
      if Ascii.eqb sb tb then asciiEqualFold s' t'
      else if isUpperLetter (upper sb) then
             if Ascii.eqb (upper sb) (upper tb) then asciiEqualFold s' t'
             else false
           else false
  | _, _ => false
  end.

(** [simpleLetterEqualFold s t]: [s] is made of ASCII letters other than
    [k] and [s]. *)
Fixpoint simpleLetterEqualFold (s t : string) : bool :=
  match s, t with
  | "", "" => true
  | String sb s', String tb t' =>
      if Ascii.eqb (upper sb) (upper tb) then simpleLetterEqualFold s' t'
      else false
  | _, _ => false
  end.

Fixpoint existsb_string (p : ascii -> bool) (s : string) : bool :=
  match s with
  | "" => false
  | String b s' => p b || existsb_string p s'
  end.

(** [bytes.EqualFold] is only chosen for a name with a non-ASCII byte; no
    JSON name of [appConfig] has one, and the comparison is then left as
    byte equality. *)
Definition foldFunc (s : string) : string -> string -> bool :=
  if existsb_string nonASCII s then String.eqb
  else if existsb_string
            (fun b => Ascii.eqb (upper b) "K"%char || Ascii.eqb (upper b) "S"%char) s
       then equalFoldRight
  else if existsb_string (fun b => negb (isUpperLetter (upper b))) s
       then asciiEqualFold
  else simpleLetterEqualFold.

End Fold.

(** ** The configuration struct *)

(** [map[string]string]; [None] is the nil map. *)
Abbreviation GoMap := (option (gmap string string)).

(** appConfig is the frontend server config. *)
Record appConfig : Type := mkAppConfig {
  Redirects : GoMap;   (* `json:"redirects"` *)
  Buckets : GoMap;     (* `json:"buckets"` *)
  WebRoot : string;    (* `json:"webroot"`  default handler pattern *)
  Index : string;      (* `json:"index"`    dir index file name *)
  HookPath : string;   (* `json:"hook"`     GCS object change notification hook pattern *)
  GCSBase : string     (* `json:"gcs"`      GCS base URL *)
}.

(** The zero value of [appConfig], which [var config appConfig] holds when
    the program starts. *)
Definition zeroConfig : appConfig :=
  {| Redirects := None; Buckets := None; WebRoot := ""; Index := "";
     HookPath := ""; GCSBase := "" |}.

Inductive Field : Type :=
| FRedirects | FBuckets | FWebRoot | FIndex | FHookPath | FGCSBase.

Global Instance Field_eq_dec : EqDecision Field.
Proof. solve_decision. Defined.

(** The fields in declaration order, as the decoder enumerates them. *)
Definition fields : list Field :=
  [FRedirects; FBuckets; FWebRoot; FIndex; FHookPath; FGCSBase].

(** The JSON name given by the struct tag. *)
Definition name (f : Field) : string :=
  match f with
  | FRedirects => "redirects"
  | FBuckets => "buckets"
  | FWebRoot => "webroot"
  | FIndex => "index"
  | FHookPath => "hook"
  | FGCSBase => "gcs"
  end.

Definition equalFold (f : Field) (key : string) : bool :=
  Fold.foldFunc (name f) (name f) key.

(** The field search of the decoder's object loop: an exact match ends the
    search; otherwise the first field matching under case folding is kept. *)
Fixpoint searchFields (fs : list Field) (key : string) (f : option Field)
  : option Field :=
  match fs with
  | [] => f
  | ff :: rest =>
      if String.eqb (name ff) key then Some ff
      else searchFields rest key
             (match f with
              | None => if equalFold ff key then Some ff else None
              | Some _ => f
              end)
  end.

Definition findField (key : string) : option Field :=
  searchFields fields key None.

Definition set_Redirects (v : GoMap) (c : appConfig) : appConfig :=
  {| Redirects := v; Buckets := Buckets c; WebRoot := WebRoot c;
     Index := Index c; HookPath := HookPath c; GCSBase := GCSBase c |}.
Definition set_Buckets (v : GoMap) (c : appConfig) : appConfig :=
  {| Redirects := Redirects c; Buckets := v; WebRoot := WebRoot c;
     Index := Index c; HookPath := HookPath c; GCSBase := GCSBase c |}.
Definition set_WebRoot (v : string) (c : appConfig) : appConfig :=
  {| Redirects := Redirects c; Buckets := Buckets c; WebRoot := v;
     Index := Index c; HookPath := HookPath c; GCSBase := GCSBase c |}.
Definition set_Index (v : string) (c : appConfig) : appConfig :=
  {| Redirects := Redirects c; Buckets := Buckets c; WebRoot := WebRoot c;
     Index := v; HookPath := HookPath c; GCSBase := GCSBase c |}.
Definition set_HookPath (v : string) (c : appConfig) : appConfig :=
  {| Redirects := Redirects c; Buckets := Buckets c; WebRoot := WebRoot c;
     Index := Index c; HookPath := v; GCSBase := GCSBase c |}.
Definition set_GCSBase (v : string) (c : appConfig) : appConfig :=
  {| Redirects := Redirects c; Buckets := Buckets c; WebRoot := WebRoot c;
     Index := Index c; HookPath := HookPath c; GCSBase := v |}.

(** ** Storing a JSON value into [appConfig] (encoding/json, decode.go)

    The decoder writes through the pointer it is given, member by member.
    It is modelled as the package documents it: a JSON value that is not
    appropriate for the Go type of its target is skipped, the rest of the
    document is stored as well as can be, and the earliest such mismatch is
    the error returned.  The mismatch is kept in [savedError] meanwhile.
    The offset an [UnmarshalTypeError] carries is a position in the text
    and is left out. *)
Module Decoder.

Definition saveError (savedError : error) (err : Error) : error :=
  match savedError with
  | None => Some err
  | Some _ => savedError
  end.

(** Storing into a [string]: a JSON string is assigned, [null] has no
    effect, any other value is a type mismatch. *)
Definition storeString (j : json) (v : string) (savedError : error)
  : string * error :=
  match j with
  | JString s => (s, savedError)
  | JNull => (v, savedError)
  | _ => (v, saveError savedError (UnmarshalTypeError (describe j) TString))
  end.

(** The members of a JSON object stored into a map: every member is
    decoded into a fresh zero element, which is then put under the key,
    also when the value did not fit. *)
Fixpoint storeMembers (members : list (string * json)) (m : gmap string string)
    (savedError : error) : gmap string string * error :=
  match members with
  | [] => (m, savedError)
  | (key, j) :: rest =>
      let '(elem, savedError') := storeString j "" savedError in
      storeMembers rest (<[key := elem]> m) savedError'
  end.

(** Storing into a [map[string]string]: [null] sets the map to nil; an
    object is added to the map already there, which is allocated first if
    it is nil; any other value is a type mismatch. *)
Definition storeMap (j : json) (v : GoMap) (savedError : error)
  : GoMap * error :=
  match j with
  | JNull => (None, savedError)
  | JObject members =>
      let m := match v with None => ∅ | Some m => m end in
      let '(m', savedError') := storeMembers members m savedError in
      (Some m', savedError')
  | _ => (v, saveError savedError
               (UnmarshalTypeError (describe j) TMapStringString))
  end.

Definition storeField (f : Field) (j : json) (c : appConfig)
    (savedError : error) : appConfig * error :=
  match f with
  | FRedirects =>
      let '(v, e) := storeMap j (Redirects c) savedError in (set_Redirects v c, e)
  | FBuckets =>
      let '(v, e) := storeMap j (Buckets c) savedError in (set_Buckets v c, e)
  | FWebRoot =>
      let '(v, e) := storeString j (WebRoot c) savedError in (set_WebRoot v c, e)
  | FIndex =>
      let '(v, e) := storeString j (Index c) savedError in (set_Index v c, e)
  | FHookPath =>
      let '(v, e) := storeString j (HookPath c) savedError in (set_HookPath v c, e)
  | FGCSBase =>
      let '(v, e) := storeString j (GCSBase c) savedError in (set_GCSBase v c, e)
  end.

(** The object loop over a struct: a member whose key selects no field is
    skipped. *)
Fixpoint storeObject (members : list (string * json)) (c : appConfig)
    (savedError : error) : appConfig * error :=
  match members with
  | [] => (c, savedError)
  | (key, j) :: rest =>
      match findField key with
      | Some f =>
          let '(c', savedError') := storeField f j c savedError in
          storeObject rest c' savedError'
      | None => storeObject rest c savedError
      end
  end.

(** [unmarshal j c]: the value [j] stored through a pointer to the struct
    [c]; the result is the struct afterwards and the error returned. *)
Definition unmarshal (j : json) (c : appConfig) : appConfig * error :=
  match j with
  | JObject members => storeObject members c None
  | JNull => (c, None)
  | _ => (c, Some (UnmarshalTypeError (describe j) TAppConfig))
  end.

End Decoder.

(** ** The process state *)

(** What the decoder finds when it reads one value from a file: a read or
    syntax error, found before anything is stored, or the value. *)
Inductive Stream : Type :=
| Broken (err : Error)
| Value (j : json).

(** What [os.Open] finds under a name; a name the file system does not
    hold does not exist. *)
Inductive Node : Type :=
| Denied (errno : Errno)
| Regular (contents : Stream).

(** [*os.File] *)
Record File : Type := mkFile { fd : nat; fname : string }.

Inductive Event : Type :=
| EvOpen (path : string) (fd : nat)
| EvRead (fd : nat)
| EvClose (fd : nat).

Global Instance Event_eq_dec : EqDecision Event.
Proof. solve_decision. Defined.

Record World : Type := mkWorld {
  files : gmap string Node;       (* the file system, by name *)
  open_files : gmap nat Stream;   (* the descriptors open in the process *)
  log : list Event;               (* the file operations made so far *)
  DefaultStorage_Base : string;   (* weasel.DefaultStorage.Base *)
  config : appConfig              (* var config appConfig *)
}.

(** [weasel.DefaultStorage] is declared in the imported package
    [appengine], which is not part of the sources at hand: the base URL is
    whatever string the field [DefaultStorage_Base] holds. *)

Definition set_config (c : appConfig) (w : World) : World :=
  {| files := files w; open_files := open_files w;
     log := log w; DefaultStorage_Base := DefaultStorage_Base w; config := c |}.

(** A Go function body: a transformer of the process state with a result. *)
Definition M (A : Type) : Type := World → A * World.

Global Instance M_ret : MRet M := λ A a w, (a, w).
Global Instance M_bind : MBind M :=
  λ A B f m w, let '(a, w') := m w in f a w'.

(** [defer d] placed in front of [body]: [d] runs when the function
    returns, whatever [body] returned. *)
Definition defer {A B : Type} (d : M B) (body : M A) : M A :=
  λ w, let '(a, w1) := body w in let '(_, w2) := d w1 in (a, w2).

(** *** package os *)

(** The search for a free descriptor from [n] on, in a table holding at
    most [fuel] descriptors: each descriptor found taken is left out of the
    rest of the search. *)
Fixpoint firstFree (m : gmap nat Stream) (n fuel : nat) : nat :=
  match fuel with
  | 0 => n
  | S k =>
      match m !! n with
      | None => n
      | Some _ => firstFree (delete n m) (S n) k
      end
  end.

(** The descriptor an open gets: the lowest one that is not open. *)
Definition lowestFree (m : gmap nat Stream) : nat := firstFree m 0 (size m).

Definition os_Open (name : string) : M (option File * error) := λ w,
  match files w !! name with
  | None => ((None, Some (PathError "open" name ENOENT)), w)
  | Some (Denied errno) => ((None, Some (PathError "open" name errno)), w)
  | Some (Regular contents) =>
      let n := lowestFree (open_files w) in
      let r := mkFile n name in
      ((Some r, None),
       {| files := files w;
          open_files := <[n := contents]> (open_files w);
          log := log w ++ [EvOpen name n];
          DefaultStorage_Base := DefaultStorage_Base w;
          config := config w |})
  end.

(** [File.Close], on a [*os.File]: an open descriptor is released; closing
    a nil or an already closed file is an error and does nothing. *)
Definition File_Close (r : option File) : M error := λ w,
  match r with
  | None => (Some ErrInvalid, w)
  | Some f =>
      match open_files w !! fd f with
      | None => (Some ErrInvalid, w)
      | Some _ =>
          (None,
           {| files := files w;
              open_files := delete (fd f) (open_files w);
              log := log w ++ [EvClose (fd f)];
              DefaultStorage_Base := DefaultStorage_Base w;
              config := config w |})
      end
  end.

(** *** package encoding/json *)

(** [json.NewDecoder(r).Decode(&config)]: one value is read from [r]; the
    errors of that phase leave the target alone; the value is then stored
    into the variable [config] itself.  Reading a nil or closed file is an
    error. *)
Definition Decode_config (r : option File) : M error := λ w,
  match r ≫= (λ f, open_files w !! fd f) with
  | None => (Some ErrInvalid, w)
  | Some contents =>
      let w1 :=
        {| files := files w; open_files := open_files w;
           log := log w ++ [EvRead (from_option fd 0 r)];
           DefaultStorage_Base := DefaultStorage_Base w; config := config w |} in
      match contents with
      | Broken err => (Some err, w1)
      | Value j =>
          let '(c, err) := Decoder.unmarshal j (config w1) in
          (err, set_config c w1)
      end
  end.

(** ** package server *)

(** configFile is the frontend server config file. *)
Definition configFile : string := "config.json".

(** Lines 60-62: an empty [config.WebRoot] is set to the root pattern. *)
Definition fillWebRoot : M unit := λ w,
  if String.eqb (WebRoot (config w)) ""
  then (tt, set_config (set_WebRoot "/" (config w)) w)
  else (tt, w).

(** Lines 63-65: an empty [config.HookPath] is set to the hook pattern. *)
Definition fillHookPath : M unit := λ w,
  if String.eqb (HookPath (config w)) ""
  then (tt, set_config (set_HookPath "/-/hook/gcs" (config w)) w)
  else (tt, w).

(** Lines 66-68: an empty [config.GCSBase] is set to
    [weasel.DefaultStorage.Base]. *)
Definition fillGCSBase : M unit := λ w,
  if String.eqb (GCSBase (config w)) ""
  then (tt, set_config (set_GCSBase (DefaultStorage_Base w) (config w)) w)
  else (tt, w).

(** readConfig reads file contents from configFile and populates config.
    JSON is the expected config file format. *)
Definition readConfig : M error :=
  '(r, err) ← os_Open configFile;
  match err with
  | Some e => mret (Some e)
  | None =>
      defer (File_Close r)
        (err ← Decode_config r;
         match err with
         | Some e => mret (Some e)
         | None =>
             fillWebRoot;;
             fillHookPath;;
             fillGCSBase;;
             mret None
         end)
  end.

(** ** Documents and states the properties speak about *)

(** The configuration file is there and holds [contents]. *)
Definition holds (w : World) (contents : Stream) : Prop :=
  files w !! configFile = Some (Regular contents).

(** The values a document gives for field [f]: those of its top-level
    members whose key selects [f], in document order. *)
Fixpoint valuesFor (f : Field) (members : list (string * json)) : list json :=
  match members with
  | [] => []
  | (key, j) :: rest =>
      if decide (findField key = Some f) then j :: valuesFor f rest
      else valuesFor f rest
  end.

Definition supplied (f : Field) (j : json) : list json :=
  match j with
  | JObject members => valuesFor f members
  | _ => []
  end.

(** The document has no member for [f]. *)
Definition omits (f : Field) (j : json) : Prop := supplied f j = [].

(** The document gives [v] for [f]; of several members for the same field
    the last one counts. *)
Definition supplies (f : Field) (j v : json) : Prop :=
  last (supplied f j) = Some v.

(** A field of the struct, as a value. *)
Inductive value : Type :=
| VString (s : string)
| VMap (m : GoMap).

Definition get (f : Field) (c : appConfig) : value :=
  match f with
  | FRedirects => VMap (Redirects c)
  | FBuckets => VMap (Buckets c)
  | FWebRoot => VString (WebRoot c)
  | FIndex => VString (Index c)
  | FHookPath => VString (HookPath c)
  | FGCSBase => VString (GCSBase c)
  end.

(** The zero value of the field's type. *)
Definition isZero (v : value) : Prop :=
  match v with
  | VString s => s = ""
  | VMap m => m = None
  end.

(** What storing [j] makes of a field holding [v]. *)
Definition assign (j : json) (v : value) : value :=
  match v with
  | VString s => VString (Decoder.storeString j s None).1
  | VMap m => VMap (Decoder.storeMap j m None).1
  end.

(** A map without entries: nil, or allocated and empty. *)
Definition noEntries (m : GoMap) : Prop := m = None ∨ m = Some ∅.

(** A JSON value that fits a [string]. *)
Definition fitsString (j : json) : bool :=
  match j with
  | JString _ | JNull => true
  | _ => false
  end.

(** A JSON value that fits a [map[string]string]. *)
Definition fitsMap (j : json) : bool :=
  match j with
  | JNull => true
  | JObject members => forallb (λ kv, fitsString kv.2) members
  | _ => false
  end.

Definition fits (f : Field) (j : json) : bool :=
  match f with
  | FRedirects | FBuckets => fitsMap j
  | FWebRoot | FIndex | FHookPath | FGCSBase => fitsString j
  end.

(** A document that matches the shape of [appConfig]: [null], or an object
    in which every member that selects a field has a value fitting the
    field's type.  Nothing is asked of the keys and values inside the two
    maps beyond being strings. *)
Definition conforms (j : json) : bool :=
  match j with
  | JNull => true
  | JObject members =>
      forallb (λ kv, match findField kv.1 with
                     | Some f => fits f kv.2
                     | None => true
                     end) members
  | _ => false
  end.

(** Whether the decoder gets as far as the members of an object. *)
Definition topLevelObject (contents : Stream) : bool :=
  match contents with
  | Value (JObject _) => true
  | _ => false
  end.

(** The three defaults in one pass over a decoded value, with [base] for
    [weasel.DefaultStorage.Base]. *)
Definition withDefaults (base : string) (c : appConfig) : appConfig :=
  {| Redirects := Redirects c;
     Buckets := Buckets c;
     WebRoot := if String.eqb (WebRoot c) "" then "/" else WebRoot c;
     Index := Index c;
     HookPath := if String.eqb (HookPath c) "" then "/-/hook/gcs" else HookPath c;
     GCSBase := if String.eqb (GCSBase c) "" then base else GCSBase c |}.

(** The state [readConfig] leaves when the file was opened: the descriptor
    is gone again, the three file operations are logged, and [config]
    holds [c]. *)
Definition returned (w : World) (c : appConfig) : World :=
  {| files := files w;
     open_files := open_files w;
     log := log w ++ [EvOpen configFile (lowestFree (open_files w));
                      EvRead (lowestFree (open_files w));
                      EvClose (lowestFree (open_files w))];
     DefaultStorage_Base := DefaultStorage_Base w;
     config := c |}.

(** ** Concrete processes and documents *)

(** Standard input, output and error; nothing is to be read from them. *)
Definition stdDescriptors : gmap nat Stream :=
  {[ 0 := Broken EOF; 1 := Broken EOF; 2 := Broken EOF ]}.

(** The process as [main] finds it: the standard descriptors are open,
    nothing was logged and [config] holds its zero value. *)
Definition boot (fs : gmap string Node) (base : string) : World :=
  {| files := fs; open_files := stdDescriptors; log := [];
     DefaultStorage_Base := base; config := zeroConfig |}.

(** A file system with the configuration file only. *)
Definition onDisk (contents : Stream) : gmap string Node :=
  {[ configFile := Regular contents ]}.

Definition storageBase : string := "https://storage.example.com".

(** A document with a boolean where the index file name should be. *)
Definition docIndexBool : json :=
  JObject [("webroot", JString "/app/"); ("index", JBool true)].

(** The document of the first scenario. *)
Definition docDefaultBucket : json :=
  JObject [("buckets", JObject [("default", JString "b1")])].

(** The document of the second scenario. *)
Definition docWebRoot : json :=
  JObject [("webroot", JString "/app/");
           ("buckets", JObject [("default", JString "b1"); ("x.com", JString "b2")])].

(** A document that breaks each convention the struct's comments ask of
    the two maps: no [default] bucket, a redirect ending in a slash, a
    redirect with a query string. *)
Definition docUnchecked : json :=
  JObject [("buckets", JObject [("x.com", JString "b2")]);
           ("redirects",
            JObject [("a.com/old", JString "https://b.com/new/");
                     ("a.com/find", JString "https://b.com/search?q=1")])].

(** Two documents loaded one after the other. *)
Definition docFirst : json :=
  JObject [("webroot", JString "/app/"); ("index", JString "index.html");
           ("buckets", JObject [("default", JString "b1")])].
Definition docSecond : json :=
  JObject [("hook", JString "/-/notify");
           ("buckets", JObject [("x.com", JString "b2")])].

(** The file system changes under the running process. *)
Definition replaceFiles (fs : gmap string Node) (w : World) : World :=
  {| files := fs; open_files := open_files w;
     log := log w; DefaultStorage_Base := DefaultStorage_Base w;
     config := config w |}.

(** The fields [readConfig] has a default for. *)
Definition defaulted (f : Field) : bool :=
  match f with
  | FWebRoot | FHookPath | FGCSBase => true
  | FRedirects | FBuckets | FIndex => false
  end.

(** *** The defaulting statements, one by one *)

Inductive Step : Type := StepWebRoot | StepHookPath | StepGCSBase.

Definition step (s : Step) : M unit :=
  match s with
  | StepWebRoot => fillWebRoot
  | StepHookPath => fillHookPath
  | StepGCSBase => fillGCSBase
  end.

(** The field a statement tests and writes. *)
Definition target (s : Step) : Field :=
  match s with
  | StepWebRoot => FWebRoot
  | StepHookPath => FHookPath
  | StepGCSBase => FGCSBase
  end.

Fixpoint runSteps (l : list Step) : M unit :=
  match l with
  | [] => mret tt
  | s :: rest => step s;; runSteps rest
  end.

(** The order in which [readConfig] has them. *)
Definition implemented : list Step := [StepWebRoot; StepHookPath; StepGCSBase].

(** *** Text in UTF-8 (package unicode/utf8, as [json.Marshal] uses it) *)
Module UTF8.

Definition between (lo hi : N) (b : ascii) : bool :=
  (lo <=? N_of_ascii b)%N && (N_of_ascii b <=? hi)%N.

(** A continuation byte. *)
Definition cont (b : ascii) : bool := between 128 191 b.

(** The second byte a three-byte rune may have after the first byte [b0]:
    no overlong form, no surrogate. *)
Definition second3 (b0 b1 : ascii) : bool :=
  if between 224 224 b0 then between 160 191 b1
  else if between 237 237 b0 then between 128 159 b1
  else cont b1.

(** The second byte a four-byte rune may have after the first byte [b0]:
    no overlong form, nothing above U+10FFFF. *)
Definition second4 (b0 b1 : ascii) : bool :=
  if between 240 240 b0 then between 144 191 b1
  else if between 244 244 b0 then between 128 143 b1
  else cont b1.

(** The number of bytes of the rune at the head of [s], and 0 if [s] is
    empty or its first byte starts no well-formed rune; this is the case
    in which [utf8.DecodeRuneInString] gives [RuneError] with width 1 on a
    non-empty string. *)
Definition runeLen (s : string) : nat :=
  match s with
  | "" => 0
  | String b0 rest =>
      if between 0 127 b0 then 1
      else if between 194 223 b0 then
        match rest with
        | String b1 _ => if cont b1 then 2 else 0
        | _ => 0
        end
      else if between 224 239 b0 then
        match rest with
        | String b1 (String b2 _) => if second3 b0 b1 && cont b2 then 3 else 0
        | _ => 0
        end
      else if between 240 244 b0 then
        match rest with
        | String b1 (String b2 (String b3 _)) =>
            if second4 b0 b1 && cont b2 && cont b3 then 4 else 0
        | _ => 0
        end
      else 0
  end.

(** U+FFFD, the replacement character. *)
Definition replacement : string :=
  String (ascii_of_N 239) (String (ascii_of_N 191) (String (ascii_of_N 189) "")).

(** The text [json.Marshal] writes for a Go string: runes are copied, and
    every byte that starts no well-formed rune becomes U+FFFD.  [skip]
    counts the bytes still to copy of a rune already recognised. *)
Fixpoint coerceFrom (skip : nat) (s : string) : string :=
  match s with
  | "" => ""
  | String b rest =>
      match skip with
      | S k => String b (coerceFrom k rest)
      | 0 =>
          match runeLen (String b rest) with
          | 0 => replacement +:+ coerceFrom 0 rest
          | S k => String b (coerceFrom k rest)
          end
      end
  end.

Definition coerce (s : string) : string := coerceFrom 0 s.

(** [utf8.ValidString] *)
Fixpoint validFrom (skip : nat) (s : string) : bool :=
  match s with
  | "" => true
  | String b rest =>
      match skip with
      | S k => validFrom k rest
      | 0 =>
          match runeLen (String b rest) with
          | 0 => false
          | S k => validFrom k rest
          end
      end
  end.

Definition valid (s : string) : bool := validFrom 0 s.

End UTF8.

(** *** Encoding a configuration

    The repository only reads the configuration.  For the round trip the
    struct is written the way [json.Marshal] writes it: one object with a
    member per field, under the name of the field's tag and in declaration
    order; a nil map as [null], a map as an object with its keys sorted; a
    string, and a key of a map, as the JSON string [UTF8.coerce] makes of
    it. *)

Definition keyLe (kv1 kv2 : string * string) : Prop :=
  String.leb kv1.1 kv2.1 = true.

Global Instance keyLe_dec (kv1 kv2 : string * string) : Decision (keyLe kv1 kv2).
Proof. unfold keyLe. apply _. Defined.

Definition encodeMap (v : GoMap) : json :=
  match v with
  | None => JNull
  | Some m =>
      JObject ((λ kv, (UTF8.coerce kv.1, JString (UTF8.coerce kv.2)))
                 <$> merge_sort keyLe (map_to_list m))
  end.

Definition encode (c : appConfig) : json :=
  JObject [(name FRedirects, encodeMap (Redirects c));
           (name FBuckets, encodeMap (Buckets c));
           (name FWebRoot, JString (UTF8.coerce (WebRoot c)));
           (name FIndex, JString (UTF8.coerce (Index c)));
           (name FHookPath, JString (UTF8.coerce (HookPath c)));
           (name FGCSBase, JString (UTF8.coerce (GCSBase c)))].

(** The keys and values of the map are valid UTF-8. *)
Definition validMap (v : GoMap) : bool :=
  match v with
  | None => true
  | Some m =>
      forallb (λ kv, UTF8.valid kv.1 && UTF8.valid kv.2) (map_to_list m)
  end.

(** Every string of the configuration is valid UTF-8. *)
Definition validConfig (c : appConfig) : bool :=
  validMap (Redirects c) && validMap (Buckets c)
  && UTF8.valid (WebRoot c) && UTF8.valid (Index c)
  && UTF8.valid (HookPath c) && UTF8.valid (GCSBase c).

(** A configuration with every field set. *)
Definition cfgFull : appConfig :=
  {| Redirects := Some {[ "old.example.com/docs" := "https://example.com/doc" ]};
     Buckets := Some {[ "default" := "b1"; "x.com" := "b2" ]};
     WebRoot := "/app/";
     Index := "index.html";
     HookPath := "/-/notify";
     GCSBase := "https://gcs.example.com" |}.

(** [cfgFull] with a [WebRoot] that is not valid UTF-8: a slash, the byte
    255, a slash. *)
Definition cfgBadText : appConfig :=
  set_WebRoot (String "/"%char (String (ascii_of_N 255) "/")) cfgFull.

(** What decoding the encoding of the map [v] makes of a field holding
    [v0]: nil if [v] is nil, and otherwise the entries of [v] over those
    already in [v0]. *)
Definition mergedInto (v v0 : GoMap) : GoMap :=
  match v with
  | None => None
  | Some m => Some (m ∪ default ∅ v0)
  end.

(** ** Notions for the further properties *)

(** The string a member of a map object leaves under its key. *)
Definition elemOf (j : json) : string := (Decoder.storeString j "" None).1.

(** The entries the members of a map object put into the map, in order. *)
Definition entries (members : list (string * json)) : list (string * string) :=
  (λ kv, (kv.1, elemOf kv.2)) <$> members.

(** The value of the last member with key [k]. *)
Fixpoint lastFor (k : string) (members : list (string * json)) : option json :=
  match members with
  | [] => None
  | (key, j) :: rest =>
      match lastFor k rest with
      | Some v => Some v
      | None => if decide (key = k) then Some j else None
      end
  end.

(** Looking a key up in a field that is a map; nothing is found in a nil
    map. *)
Definition lookupIn (v : value) (k : string) : option string :=
  match v with
  | VMap (Some m) => m !! k
  | _ => None
  end.

(** The members whose key selects a field. *)
Definition knownMembers (members : list (string * json)) : list (string * json) :=
  filter (λ kv, is_Some (findField kv.1)) members.

(** What a run of stores does to a map, whatever the map: nothing, a fixed
    result, or a run of insertions. *)
Inductive MapAct : Type :=
| Keep
| Const (c : GoMap)
| Ins (l : list (string * string)).

Definition insertAll (l : list (string * string)) (m : gmap string string)
  : gmap string string :=
  foldl (λ m kv, <[kv.1 := kv.2]> m) m l.

Definition applyAct (a : MapAct) (m : GoMap) : GoMap :=
  match a with
  | Keep => m
  | Const c => c
  | Ins l => Some (insertAll l (default ∅ m))
  end.

Definition thenStore (a : MapAct) (j : json) : MapAct :=
  match j with
  | JNull => Const None
  | JObject members =>
      match a with
      | Keep => Ins (entries members)
      | Const c => Const (Some (insertAll (entries members) (default ∅ c)))
      | Ins l => Ins (l ++ entries members)
      end
  | _ => a
  end.

(** The last string among the values, if any. *)
Fixpoint lastString (l : list json) : option string :=
  match l with
  | [] => None
  | j :: rest =>
      match lastString rest with
      | Some s => Some s
      | None => match j with JString s => Some s | _ => None end
      end
  end.

(** The only errors the decoder saves are type mismatches. *)
Definition typeErrorOnly (e : error) : Prop :=
  match e with
  | None | Some (UnmarshalTypeError _ _) => True
  | Some _ => False
  end.

(** The default [readConfig] has for a field, with [base] for
    [weasel.DefaultStorage.Base]; fields without one have none. *)
Definition defaultOf (base : string) (f : Field) : option string :=
  match f with
  | FWebRoot => Some "/"
  | FHookPath => Some "/-/hook/gcs"
  | FGCSBase => Some base
  | FRedirects | FBuckets | FIndex => None
  end.

(** What the defaulting makes of the value of field [f]. *)
Definition fillValue (base : string) (f : Field) (v : value) : value :=
  match defaultOf base f, v with
  | Some d, VString s => VString (if String.eqb s "" then d else s)
  | _, _ => v
  end.

(** The first letter of a field's JSON name, in upper case. *)
Definition initial (f : Field) : ascii :=
  match name f with
  | String a _ => Fold.upper a
  | "" => "000"%char
  end.

(** * Properties *)

(** ** How [readConfig] runs *)

#[local] Arguments File_Close _ _ : simpl never.
#[local] Arguments findField _ : simpl never.
#[local] Arguments lowestFree _ : simpl never.

(** The search does not go below where it starts. *)
Lemma firstFree_ge (fuel : nat) (m : gmap nat Stream) (n : nat) :
  (n ≤ firstFree m n fuel)%nat.
Proof.
  revert m n. induction fuel as [|k IH]; intros m n; cbn; [lia|].
  destruct (m !! n); [|lia]. specialize (IH (delete n m) (S n)). lia.
Qed.

(** With fuel for every descriptor of the table, the search ends on a
    free one. *)
Lemma firstFree_free (fuel : nat) (m : gmap nat Stream) (n : nat) :
  (size m ≤ fuel)%nat → m !! firstFree m n fuel = None.
Proof.
  revert m n. induction fuel as [|k IH]; intros m n Hsize; cbn.
  - assert (size m = 0) as Hz by lia. apply map_size_empty_inv in Hz.
    subst m. apply lookup_empty.
  - destruct (m !! n) as [x|] eqn:Hn; [|exact Hn].
    pose proof (firstFree_ge k (delete n m) (S n)) as Hge.
    assert (size (delete n m) ≤ k)%nat as Hk.
    { pose proof (map_size_delete_Some n m ltac:(eauto)) as Hd. lia. }
    specialize (IH (delete n m) (S n) Hk).
    rewrite lookup_delete_ne in IH by lia. exact IH.
Qed.

(** Every descriptor the search passes is taken. *)
Lemma firstFree_least (fuel : nat) (m : gmap nat Stream) (n k : nat) :
  (n ≤ k)%nat → (k < firstFree m n fuel)%nat → is_Some (m !! k).
Proof.
  revert m n. induction fuel as [|i IH]; intros m n Hnk Hk; cbn in Hk; [lia|].
  destruct (m !! n) as [x|] eqn:Hn; [|lia].
  destruct (decide (k = n)) as [->|Hne]; [eauto|].
  specialize (IH (delete n m) (S n) ltac:(lia) Hk).
  rewrite lookup_delete_ne in IH by lia. exact IH.
Qed.

Lemma lowestFree_free (m : gmap nat Stream) : m !! lowestFree m = None.
Proof. apply firstFree_free. lia. Qed.

Lemma lowestFree_least (m : gmap nat Stream) (k : nat) :
  (k < lowestFree m)%nat → is_Some (m !! k).
Proof. apply firstFree_least. lia. Qed.

Lemma fill_steps {A : Type} (a : A) (w : World) :
  (fillWebRoot;; fillHookPath;; fillGCSBase;; mret a) w
  = (a, set_config (withDefaults (DefaultStorage_Base w) (config w)) w).
Proof.
  destruct w as [fl op lg base [r b wr ix hp gb]].
  unfold mbind, M_bind, mret, M_ret, fillWebRoot, fillHookPath, fillGCSBase,
    withDefaults, set_config; cbn.
  destruct (String.eqb wr ""); cbn;
    destruct (String.eqb hp ""); cbn;
    destruct (String.eqb gb ""); cbn; reflexivity.
Qed.

Lemma readConfig_not_opened (w : World) (e : Error) :
  snd (fst (os_Open configFile w)) = Some e → readConfig w = (Some e, w).
Proof.
  unfold readConfig, mbind, M_bind, os_Open.
  destruct (files w !! configFile) as [[errno|contents]|]; cbn;
    intros H; try discriminate; injection H as <-; reflexivity.
Qed.

Lemma close_returns (w : World) (contents : Stream) (c : appConfig) :
  File_Close (Some (mkFile (lowestFree (open_files w)) configFile))
    {| files := files w;
       open_files := <[lowestFree (open_files w) := contents]> (open_files w);
       log := (log w ++ [EvOpen configFile (lowestFree (open_files w))])
              ++ [EvRead (lowestFree (open_files w))];
       DefaultStorage_Base := DefaultStorage_Base w;
       config := c |}
  = (None, returned w c).
Proof.
  unfold File_Close, returned; cbn.
  rewrite lookup_insert_eq, delete_insert_eq.
  rewrite (delete_id _ _ (lowestFree_free (open_files w))).
  repeat rewrite <- app_assoc. reflexivity.
Qed.

Lemma readConfig_broken (w : World) (err : Error) :
  holds w (Broken err) →
  readConfig w = (Some err, returned w (config w)).
Proof.
  unfold holds, readConfig, mbind, M_bind, os_Open. intros ->. cbn.
  unfold defer, Decode_config; cbn.
  rewrite lookup_insert_eq; cbn.
  rewrite close_returns. reflexivity.
Qed.

Lemma readConfig_value (w : World) (j : json) :
  holds w (Value j) →
  readConfig w
  = match Decoder.unmarshal j (config w) with
    | (c, Some e) => (Some e, returned w c)
    | (c, None) => (None, returned w (withDefaults (DefaultStorage_Base w) c))
    end.
Proof.
  unfold holds, readConfig. intros Hfile.
  unfold mbind at 1, M_bind at 1, os_Open. rewrite Hfile.
  unfold defer. unfold mbind at 1, M_bind at 1, Decode_config; cbn.
  rewrite lookup_insert_eq; cbn.
  destruct (Decoder.unmarshal j (config w)) as [c [e|]]; cbn.
  - unfold set_config; cbn. rewrite close_returns. reflexivity.
  - rewrite fill_steps. unfold set_config; cbn.
    rewrite close_returns. reflexivity.
Qed.

(** ** What the decoder stores *)

Section DecoderFacts.
Import Decoder.

Lemma storeString_value (j : json) (v : string) (e : error) :
  (storeString j v e).1 = (storeString j v None).1.
Proof. destruct j; reflexivity. Qed.

Lemma storeMembers_value (members : list (string * json))
    (m : gmap string string) (e : error) :
  (storeMembers members m e).1 = (storeMembers members m None).1.
Proof.
  revert m e. induction members as [|[key j] rest IH]; intros m e; [reflexivity|].
  cbn. destruct (storeString j "" e) as [elem e'] eqn:He.
  destruct (storeString j "" None) as [elem0 e0] eqn:H0.
  assert (elem = elem0) as ->.
  { pose proof (storeString_value j "" e) as H. rewrite He, H0 in H. exact H. }
  rewrite (IH _ e'), (IH _ e0). reflexivity.
Qed.

Lemma storeMap_value (j : json) (v : GoMap) (e : error) :
  (storeMap j v e).1 = (storeMap j v None).1.
Proof.
  destruct j; try reflexivity. cbn.
  pose proof (storeMembers_value members (match v with Some m => m | None => ∅ end) e) as H.
  destruct (storeMembers members _ e), (storeMembers members _ None).
  cbn in *. congruence.
Qed.

(** The store the goal is about, taken apart with the fact [lemM] (maps) or
    [lemS] (strings) about it. *)
Ltac store_case lemM lemS H :=
  match goal with
  | |- context [storeMap ?j ?v ?e] =>
      pose proof (lemM j v) as H; try specialize (H e);
      destruct (storeMap j v e)
  | |- context [storeString ?j ?v ?e] =>
      pose proof (lemS j v) as H; try specialize (H e);
      destruct (storeString j v e)
  end.

Lemma get_storeField (f g : Field) (j : json) (c : appConfig) (e : error) :
  get f (storeField g j c e).1
  = if decide (f = g) then assign j (get f c) else get f c.
Proof.
  destruct g; unfold storeField; store_case storeMap_value storeString_value H;
    cbn in H; subst; destruct f; reflexivity.
Qed.

(** Each field ends up with the values the document gives for it, stored
    one after the other over what the field held. *)
Lemma get_storeObject (f : Field) (members : list (string * json))
    (c : appConfig) (e : error) :
  get f (storeObject members c e).1
  = foldl (λ v j, assign j v) (get f c) (valuesFor f members).
Proof.
  revert c e. induction members as [|[key j] rest IH]; intros c e; [reflexivity|].
  cbn. destruct (findField key) as [g|] eqn:Hkey.
  - destruct (storeField g j c e) as [c' e'] eqn:Hst.
    rewrite IH.
    pose proof (get_storeField f g j c e) as H. rewrite Hst in H. cbn in H.
    rewrite H.
    destruct (decide (Some g = Some f)) as [Heq|Hne].
    + injection Heq as ->. rewrite decide_True by reflexivity. reflexivity.
    + rewrite decide_False by congruence. reflexivity.
  - rewrite decide_False by discriminate. apply IH.
Qed.

Lemma get_unmarshal (f : Field) (j : json) (c : appConfig) :
  get f (unmarshal j c).1
  = foldl (λ v j, assign j v) (get f c) (supplied f j).
Proof. destruct j; try reflexivity. apply get_storeObject. Qed.

Lemma foldl_assign_string (l : list json) (v : string) :
  foldl (λ v j, assign j v) (VString v) l
  = VString (foldl (λ s j, (storeString j s None).1) v l).
Proof. revert v. induction l as [|j l IH]; intros v; [reflexivity|]. cbn. apply IH. Qed.

Lemma foldl_assign_map (l : list json) (m : GoMap) :
  foldl (λ v j, assign j v) (VMap m) l
  = VMap (foldl (λ m j, (storeMap j m None).1) m l).
Proof. revert m. induction l as [|j l IH]; intros m; [reflexivity|]. cbn. apply IH. Qed.

Lemma foldl_assign_last_string (l : list json) (s v : string) :
  last l = Some (JString s) →
  foldl (λ v j, assign j v) (VString v) l = VString s.
Proof.
  intros Hl. destruct l as [|j l _] using rev_ind; [discriminate|].
  rewrite last_snoc in Hl. injection Hl as ->.
  rewrite foldl_assign_string, foldl_app. reflexivity.
Qed.

(** *** When the decoder reports a mismatch *)

Lemma storeString_saved (j : json) (v : string) (e : Error) :
  (storeString j v (Some e)).2 = Some e.
Proof. destruct j; reflexivity. Qed.

Lemma storeString_error (j : json) (v : string) :
  (storeString j v None).2 = None ↔ fitsString j = true.
Proof. destruct j; cbn; split; congruence. Qed.

Lemma storeMembers_saved (members : list (string * json))
    (m : gmap string string) (e : Error) :
  (storeMembers members m (Some e)).2 = Some e.
Proof.
  revert m. induction members as [|[key j] rest IH]; intros m; [reflexivity|].
  cbn. pose proof (storeString_saved j "" e) as H.
  destruct (storeString j "" (Some e)) as [elem e']. cbn in H. subst e'. apply IH.
Qed.

Lemma storeMembers_error (members : list (string * json))
    (m : gmap string string) :
  (storeMembers members m None).2 = None
  ↔ forallb (λ kv, fitsString kv.2) members = true.
Proof.
  revert m. induction members as [|[key j] rest IH]; intros m; [done|].
  cbn. pose proof (storeString_error j "") as H.
  destruct (storeString j "" None) as [elem [e|]]; cbn in H.
  - rewrite storeMembers_saved.
    destruct (fitsString j); cbn; [|done].
    destruct H as [_ H]. specialize (H eq_refl). discriminate.
  - destruct H as [H _]. rewrite (H eq_refl). cbn. apply IH.
Qed.

Lemma storeMap_saved (j : json) (v : GoMap) (e : Error) :
  (storeMap j v (Some e)).2 = Some e.
Proof.
  destruct j; try reflexivity. cbn.
  pose proof (storeMembers_saved members (match v with Some m => m | None => ∅ end) e) as H.
  destruct (storeMembers members _ (Some e)). exact H.
Qed.

Lemma storeMap_error (j : json) (v : GoMap) :
  (storeMap j v None).2 = None ↔ fitsMap j = true.
Proof.
  destruct j; cbn; try (split; congruence).
  pose proof (storeMembers_error members (match v with Some m => m | None => ∅ end)) as H.
  destruct (storeMembers members _ None). exact H.
Qed.

Lemma storeField_saved (f : Field) (j : json) (c : appConfig) (e : Error) :
  (storeField f j c (Some e)).2 = Some e.
Proof.
  destruct f; unfold storeField;
    match goal with
    | |- context [storeMap ?j ?v (Some ?e0)] =>
        pose proof (storeMap_saved j v e0) as H; destruct (storeMap j v _)
    | |- context [storeString ?j ?v (Some ?e0)] =>
        pose proof (storeString_saved j v e0) as H; destruct (storeString j v _)
    end;
    exact H.
Qed.

Lemma storeField_error (f : Field) (j : json) (c : appConfig) :
  (storeField f j c None).2 = None ↔ fits f j = true.
Proof.
  destruct f; unfold storeField; store_case storeMap_error storeString_error H;
    exact H.
Qed.

Lemma storeObject_saved (members : list (string * json)) (c : appConfig)
    (e : Error) :
  (storeObject members c (Some e)).2 = Some e.
Proof.
  revert c. induction members as [|[key j] rest IH]; intros c; [reflexivity|].
  cbn. destruct (findField key) as [f|]; [|apply IH].
  pose proof (storeField_saved f j c e) as H.
  destruct (storeField f j c (Some e)) as [c' e']. cbn in H. subst e'. apply IH.
Qed.

(** The decoder reports no mismatch exactly on the documents that match
    the shape of the struct. *)
Lemma unmarshal_error (j : json) (c : appConfig) :
  (unmarshal j c).2 = None ↔ conforms j = true.
Proof.
  destruct j; cbn; try (split; congruence).
  revert c. induction members as [|[key v] rest IH]; intros c; [done|].
  cbn. destruct (findField key) as [f|]; [|apply IH].
  pose proof (storeField_error f v c) as H.
  destruct (storeField f v c None) as [c' [e|]]; cbn in H.
  - rewrite storeObject_saved.
    destruct (fits f v); cbn; [|done].
    destruct H as [_ H]. specialize (H eq_refl). discriminate.
  - destruct H as [H _]. rewrite (H eq_refl). cbn. apply IH.
Qed.

End DecoderFacts.

(** ** Failed loads *)

Lemma omitted_field_kept (f : Field) (j : json) (c : appConfig) :
  omits f j → get f (Decoder.unmarshal j c).1 = get f c.
Proof. unfold omits. intros H. rewrite get_unmarshal, H. reflexivity. Qed.

(** C4. When [os.Open] fails on the configuration file, [readConfig]
    returns the error [os.Open] gave, and it returns the process state as
    it found it: [config] is not written, nothing is opened or logged. *)
Theorem open_failure_propagates (w : World) (e : Error) :
  snd (fst (os_Open configFile w)) = Some e →
  fst (readConfig w) = Some e ∧ snd (readConfig w) = w
  ∧ config (snd (readConfig w)) = config w.
Proof.
  intros H. rewrite (readConfig_not_opened w e H). auto.
Qed.

Lemma open_failure_propagates_witness :
  snd (fst (os_Open configFile (boot ∅ storageBase)))
    = Some (PathError "open" "config.json" ENOENT)
  ∧ fst (readConfig (boot ∅ storageBase))
    = Some (PathError "open" "config.json" ENOENT)
  ∧ snd (readConfig (boot ∅ storageBase)) = boot ∅ storageBase
  ∧ config (snd (readConfig (boot ∅ storageBase))) = zeroConfig.
Proof.
  split; [reflexivity|].
  apply (open_failure_propagates (boot ∅ storageBase)
           (PathError "open" "config.json" ENOENT)).
  reflexivity.
Defined.

(** C1, as stated, fails.  The document [docIndexBool] is well-formed
    JSON but gives a boolean for the string field [Index].  Loaded at
    start-up, [readConfig] returns the decoder's type error, and [config]
    is no longer what it was: [WebRoot] has been stored, and the fields
    without a member are still empty, no default having been applied. *)
Lemma decode_error_changes_slot :
  let w := boot (onDisk (Value docIndexBool)) storageBase in
  fst (readConfig w) = Some (UnmarshalTypeError "bool" TString)
  ∧ config w = zeroConfig
  ∧ config (snd (readConfig w)) ≠ config w
  ∧ WebRoot (config (snd (readConfig w))) = "/app/"
  ∧ HookPath (config (snd (readConfig w))) = "".
Proof.
  cbv zeta. repeat split; try (vm_compute; reflexivity).
  vm_compute. discriminate.
Qed.

(** C1, amended.  Let [readConfig] return an error after the file was
    opened.  If the contents are not valid JSON or cannot be read, or the
    value read is not an object, [config] is exactly what it was before
    the call.  If the value is an object, [config] holds what the decoder
    stored from it, without any default, and every field the document has
    no member for is what it was before the call. *)
Theorem decode_error_slot (w : World) (contents : Stream) (e : Error) :
  holds w contents →
  fst (readConfig w) = Some e →
  (topLevelObject contents = false → config (snd (readConfig w)) = config w)
  ∧ (∀ j, contents = Value j →
       config (snd (readConfig w)) = (Decoder.unmarshal j (config w)).1
       ∧ ∀ f, omits f j →
           get f (config (snd (readConfig w))) = get f (config w)).
Proof.
  intros Hfile Herr. destruct contents as [err|j].
  - rewrite (readConfig_broken w err Hfile). split; [reflexivity|]. discriminate.
  - rewrite (readConfig_value w j Hfile) in *.
    destruct (Decoder.unmarshal j (config w)) as [c [e'|]] eqn:Hun;
      [|discriminate]. cbn.
    split.
    + intros Htop. destruct j; cbn in Hun, Htop; congruence.
    + intros j' [= <-]. rewrite Hun. split; [reflexivity|].
      intros f Hf. pose proof (omitted_field_kept f j (config w) Hf) as H.
      rewrite Hun in H. exact H.
Qed.

Lemma decode_error_slot_witness :
  let w := boot (onDisk (Broken (SyntaxError "invalid character '}'" 12)))
             storageBase in
  holds w (Broken (SyntaxError "invalid character '}'" 12))
  ∧ fst (readConfig w) = Some (SyntaxError "invalid character '}'" 12)
  ∧ config (snd (readConfig w)) = config w.
Proof.
  cbv zeta. split; [reflexivity|]. split; [reflexivity|].
  eapply (decode_error_slot
            (boot (onDisk (Broken (SyntaxError "invalid character '}'" 12)))
               storageBase)
            (Broken (SyntaxError "invalid character '}'" 12))
            (SyntaxError "invalid character '}'" 12)); reflexivity.
Defined.

(** ** Successful loads *)

(** After a successful load [config] is the decoded value with the
    defaults filled in. *)
Lemma loaded_config (w : World) (j : json) :
  holds w (Value j) →
  fst (readConfig w) = None →
  config (snd (readConfig w))
  = withDefaults (DefaultStorage_Base w) (Decoder.unmarshal j (config w)).1.
Proof.
  intros Hfile Hok. rewrite (readConfig_value w j Hfile) in *.
  destruct (Decoder.unmarshal j (config w)) as [c [e|]]; [discriminate|].
  reflexivity.
Qed.

(** A string field the document leaves empty is empty after decoding. *)
Lemma decoded_unset (f : Field) (j : json) (c : appConfig) (s : string) :
  get f c = VString s →
  (omits f j ∧ s = "") ∨ supplies f j (JString "") →
  get f (Decoder.unmarshal j c).1 = VString "".
Proof.
  intros Hget [[Hom ->]|Hsup].
  - rewrite (omitted_field_kept f j c Hom). exact Hget.
  - rewrite get_unmarshal, Hget. apply foldl_assign_last_string, Hsup.
Qed.

(** A string field gets the string the document supplies for it. *)
Lemma decoded_supplied (f : Field) (j : json) (c : appConfig) (s0 s : string) :
  get f c = VString s0 →
  supplies f j (JString s) →
  get f (Decoder.unmarshal j c).1 = VString s.
Proof.
  intros Hget Hsup.
  rewrite get_unmarshal, Hget. apply foldl_assign_last_string, Hsup.
Qed.

(** C2. Let the configuration file hold a JSON document and the load
    succeed.  A field among [WebRoot], [HookPath] and [GCSBase] for which
    the document has no member (the field being empty before the load, as
    it is at start-up), or for which it supplies the empty string, holds
    its default afterwards: the root pattern, the hook pattern, and
    [weasel.DefaultStorage.Base]. *)
Theorem defaults_fill_unset (w : World) (j : json) :
  holds w (Value j) →
  fst (readConfig w) = None →
  ((omits FWebRoot j ∧ WebRoot (config w) = "")
     ∨ supplies FWebRoot j (JString "") →
   WebRoot (config (snd (readConfig w))) = "/")
  ∧ ((omits FHookPath j ∧ HookPath (config w) = "")
       ∨ supplies FHookPath j (JString "") →
     HookPath (config (snd (readConfig w))) = "/-/hook/gcs")
  ∧ ((omits FGCSBase j ∧ GCSBase (config w) = "")
       ∨ supplies FGCSBase j (JString "") →
     GCSBase (config (snd (readConfig w))) = DefaultStorage_Base w).
Proof.
  intros Hfile Hok. rewrite (loaded_config w j Hfile Hok).
  repeat split; intros H.
  - pose proof (decoded_unset FWebRoot j (config w) _ eq_refl H) as Hd.
    cbn in Hd. injection Hd as Hd. cbn. rewrite Hd. reflexivity.
  - pose proof (decoded_unset FHookPath j (config w) _ eq_refl H) as Hd.
    cbn in Hd. injection Hd as Hd. cbn. rewrite Hd. reflexivity.
  - pose proof (decoded_unset FGCSBase j (config w) _ eq_refl H) as Hd.
    cbn in Hd. injection Hd as Hd. cbn. rewrite Hd. reflexivity.
Qed.

Lemma defaults_fill_unset_witness :
  let w := boot (onDisk (Value docDefaultBucket)) storageBase in
  holds w (Value docDefaultBucket)
  ∧ fst (readConfig w) = None
  ∧ omits FWebRoot docDefaultBucket
  ∧ omits FHookPath docDefaultBucket
  ∧ omits FGCSBase docDefaultBucket
  ∧ WebRoot (config (snd (readConfig w))) = "/"
  ∧ HookPath (config (snd (readConfig w))) = "/-/hook/gcs"
  ∧ GCSBase (config (snd (readConfig w))) = storageBase.
Proof.
  cbv zeta.
  pose proof (defaults_fill_unset
                (boot (onDisk (Value docDefaultBucket)) storageBase)
                docDefaultBucket eq_refl eq_refl) as (H1 & H2 & H3).
  do 5 (split; [reflexivity|]).
  split; [apply H1; left; split; reflexivity|].
  split; [apply H2; left; split; reflexivity|].
  apply H3; left; split; reflexivity.
Defined.

(** C3. Let the configuration file hold a JSON document and the load
    succeed.  A field among [WebRoot], [HookPath] and [GCSBase] for which
    the document supplies a non-empty string holds that string afterwards,
    whatever [config] held before. *)
Theorem supplied_values_kept (w : World) (j : json) (s : string) :
  holds w (Value j) →
  fst (readConfig w) = None →
  s ≠ "" →
  (supplies FWebRoot j (JString s) →
   WebRoot (config (snd (readConfig w))) = s)
  ∧ (supplies FHookPath j (JString s) →
     HookPath (config (snd (readConfig w))) = s)
  ∧ (supplies FGCSBase j (JString s) →
     GCSBase (config (snd (readConfig w))) = s).
Proof.
  intros Hfile Hok Hs. rewrite (loaded_config w j Hfile Hok).
  apply String.eqb_neq in Hs.
  repeat split; intros H.
  - pose proof (decoded_supplied FWebRoot j (config w) _ s eq_refl H) as Hd.
    cbn in Hd. injection Hd as Hd. cbn. rewrite Hd, Hs. reflexivity.
  - pose proof (decoded_supplied FHookPath j (config w) _ s eq_refl H) as Hd.
    cbn in Hd. injection Hd as Hd. cbn. rewrite Hd, Hs. reflexivity.
  - pose proof (decoded_supplied FGCSBase j (config w) _ s eq_refl H) as Hd.
    cbn in Hd. injection Hd as Hd. cbn. rewrite Hd, Hs. reflexivity.
Qed.

Lemma supplied_values_kept_witness :
  let w := boot (onDisk (Value docWebRoot)) storageBase in
  holds w (Value docWebRoot)
  ∧ fst (readConfig w) = None
  ∧ "/app/" ≠ ""
  ∧ supplies FWebRoot docWebRoot (JString "/app/")
  ∧ WebRoot (config (snd (readConfig w))) = "/app/".
Proof.
  cbv zeta.
  assert ("/app/" ≠ "") as Hne by discriminate.
  split; [reflexivity|]. split; [reflexivity|]. split; [exact Hne|].
  split; [reflexivity|].
  apply (supplied_values_kept
           (boot (onDisk (Value docWebRoot)) storageBase)
           docWebRoot "/app/" eq_refl eq_refl Hne).
  reflexivity.
Defined.

(** C5. The document with the single member [buckets], holding the single
    entry [default] to [b1], loaded at start-up with any base URL [base]
    in [weasel.DefaultStorage.Base]: the load succeeds and [config] holds
    the root pattern, the hook pattern, [base], that bucket map and a nil
    [Redirects] ([Index], which has no default, is empty). *)
Theorem scenario_default_bucket (base : string) :
  let w := boot (onDisk (Value docDefaultBucket)) base in
  fst (readConfig w) = None
  ∧ config (snd (readConfig w))
    = {| Redirects := None;
         Buckets := Some {[ "default" := "b1" ]};
         WebRoot := "/";
         Index := "";
         HookPath := "/-/hook/gcs";
         GCSBase := base |}.
Proof.
  cbv zeta.
  rewrite (readConfig_value (boot (onDisk (Value docDefaultBucket)) base)
             docDefaultBucket eq_refl).
  split; reflexivity.
Qed.

(** The second scenario: a supplied [webroot] is kept, the other defaults
    are filled in. *)
Example scenario_web_root (base : string) :
  let w := boot (onDisk (Value docWebRoot)) base in
  fst (readConfig w) = None
  ∧ config (snd (readConfig w))
    = {| Redirects := None;
         Buckets := Some {[ "default" := "b1"; "x.com" := "b2" ]};
         WebRoot := "/app/";
         Index := "";
         HookPath := "/-/hook/gcs";
         GCSBase := base |}.
Proof.
  cbv zeta.
  rewrite (readConfig_value (boot (onDisk (Value docWebRoot)) base)
             docWebRoot eq_refl).
  split; vm_compute; reflexivity.
Qed.

(** Keys select fields without regard to case; a key that is no field's
    name selects nothing. *)
Example key_matching :
  findField "webroot" = Some FWebRoot
  ∧ findField "WebRoot" = Some FWebRoot
  ∧ findField "HOOK" = Some FHookPath
  ∧ findField ("hoo" +:+ Fold.kelvin) = Some FHookPath
  ∧ findField ("gc" +:+ Fold.smallLongEss) = Some FGCSBase
  ∧ findField "webroots" = None
  ∧ findField "" = None.
Proof. repeat split; vm_compute; reflexivity. Qed.

(** [null] leaves a string alone and makes a map nil. *)
Example null_members (c : appConfig) :
  Decoder.unmarshal (JObject [("index", JNull); ("buckets", JNull)]) c
  = (set_Buckets None c, None).
Proof. destruct c; reflexivity. Qed.

(** C7. A document that matches the shape of the struct loads without
    error whatever its two maps hold, and the maps in [config] are the
    ones the decoder stored: no entry is checked, dropped or rewritten.
    [conforms] asks nothing of the map contents, so this includes a
    [buckets] map without a [default] key and redirect targets ending in a
    slash or carrying a query string. *)
Theorem no_content_validation (w : World) (j : json) :
  holds w (Value j) →
  conforms j = true →
  fst (readConfig w) = None
  ∧ Redirects (config (snd (readConfig w)))
    = Redirects (Decoder.unmarshal j (config w)).1
  ∧ Buckets (config (snd (readConfig w)))
    = Buckets (Decoder.unmarshal j (config w)).1.
Proof.
  intros Hfile Hshape.
  apply (unmarshal_error j (config w)) in Hshape.
  rewrite (readConfig_value w j Hfile).
  destruct (Decoder.unmarshal j (config w)) as [c e]. cbn in Hshape. subst e.
  repeat split.
Qed.

Lemma no_content_validation_witness :
  let w := boot (onDisk (Value docUnchecked)) storageBase in
  holds w (Value docUnchecked)
  ∧ conforms docUnchecked = true
  ∧ fst (readConfig w) = None
  ∧ (Buckets (config (snd (readConfig w))) ≫= (.!! "default")) = None
  ∧ (Redirects (config (snd (readConfig w))) ≫= (.!! "a.com/old"))
    = Some "https://b.com/new/"
  ∧ (Redirects (config (snd (readConfig w))) ≫= (.!! "a.com/find"))
    = Some "https://b.com/search?q=1".
Proof.
  cbv zeta.
  pose proof (no_content_validation
                (boot (onDisk (Value docUnchecked)) storageBase)
                docUnchecked eq_refl eq_refl) as (H1 & H2 & H3).
  split; [reflexivity|]. split; [reflexivity|]. split; [exact H1|].
  rewrite H2, H3. repeat split; vm_compute; reflexivity.
Defined.

(** ** The defaulting statements *)

Lemma step_result (s : Step) (w : World) : step s w = (tt, snd (step s w)).
Proof. destruct (step s w) as [[] w']. reflexivity. Qed.

(** Two defaulting statements can be exchanged. *)
Lemma step_commute (s1 s2 : Step) (w : World) :
  snd (step s2 (snd (step s1 w))) = snd (step s1 (snd (step s2 w))).
Proof.
  destruct w as [fl op lg base [r b wr ix hp gb]].
  destruct s1, s2; try reflexivity;
    destruct (String.eqb wr "") eqn:E1, (String.eqb hp "") eqn:E2,
      (String.eqb gb "") eqn:E3;
    unfold step, fillWebRoot, fillHookPath, fillGCSBase, set_config; cbn;
    repeat (rewrite ?E1, ?E2, ?E3; cbn); reflexivity.
Qed.

Lemma runSteps_cons (s : Step) (l : list Step) (w : World) :
  runSteps (s :: l) w = runSteps l (snd (step s w)).
Proof.
  cbn [runSteps]. unfold mbind, M_bind. rewrite step_result. reflexivity.
Qed.

Lemma runSteps_Permutation (l1 l2 : list Step) :
  l1 ≡ₚ l2 → ∀ w, runSteps l1 w = runSteps l2 w.
Proof.
  induction 1 as [|s l1 l2 _ IH|s1 s2 l|l1 l2 l3 _ IH1 _ IH2]; intros w.
  - reflexivity.
  - rewrite !runSteps_cons. apply IH.
  - rewrite !runSteps_cons, step_commute. reflexivity.
  - rewrite IH1. apply IH2.
Qed.

(** Each statement writes the field it tests and nothing else. *)
Lemma step_frame (s : Step) (w : World) (f : Field) :
  f ≠ target s →
  get f (config (snd (step s w))) = get f (config w).
Proof.
  destruct s; unfold step, fillWebRoot, fillHookPath, fillGCSBase; cbn;
    intros Hf;
    match goal with |- context [String.eqb ?a ?b] => destruct (String.eqb a b) end;
    try reflexivity; destruct f; try reflexivity; congruence.
Qed.

(** C8. Each of the three defaulting statements writes one field, a
    different one each, and leaves the others alone.  On every process
    state, and so for every decoded value in [config], running the three
    statements in any order gives the state the order of [readConfig]
    gives, and so does the single pass [withDefaults]. *)
Theorem defaults_order_independent (w : World) (l : list Step) :
  l ≡ₚ implemented →
  (∀ s f, f ≠ target s → get f (config (snd (step s w))) = get f (config w))
  ∧ runSteps l w = (fillWebRoot;; fillHookPath;; fillGCSBase) w
  ∧ runSteps l w
    = (tt, set_config (withDefaults (DefaultStorage_Base w) (config w)) w).
Proof.
  intros Hl. split; [intros s f; apply step_frame|].
  rewrite (runSteps_Permutation l implemented Hl w).
  assert (runSteps implemented w
          = (tt, set_config (withDefaults (DefaultStorage_Base w) (config w)) w))
    as Hrun by apply (fill_steps tt w).
  split; [|exact Hrun].
  rewrite Hrun.
  destruct w as [fl op lg base [r b wr ix hp gb]].
  unfold mbind, M_bind, fillWebRoot, fillHookPath, fillGCSBase, withDefaults,
    set_config; cbn.
  destruct (String.eqb wr ""); cbn;
    destruct (String.eqb hp ""); cbn;
    destruct (String.eqb gb ""); cbn; reflexivity.
Qed.

Lemma defaults_order_independent_witness :
  let w := set_config (set_Index "index.html" zeroConfig) (boot ∅ storageBase) in
  [StepGCSBase; StepWebRoot; StepHookPath] ≡ₚ implemented
  ∧ runSteps [StepGCSBase; StepWebRoot; StepHookPath] w
    = (fillWebRoot;; fillHookPath;; fillGCSBase) w
  ∧ config (snd (runSteps [StepGCSBase; StepWebRoot; StepHookPath] w))
    = {| Redirects := None; Buckets := None; WebRoot := "/";
         Index := "index.html"; HookPath := "/-/hook/gcs";
         GCSBase := storageBase |}.
Proof.
  cbv zeta.
  assert ([StepGCSBase; StepWebRoot; StepHookPath] ≡ₚ implemented) as Hp.
  { unfold implemented.
    apply (perm_trans (l' := [StepWebRoot; StepGCSBase; StepHookPath])).
    - apply perm_swap.
    - apply perm_skip, perm_swap. }
  split; [exact Hp|].
  destruct (defaults_order_independent
              (set_config (set_Index "index.html" zeroConfig) (boot ∅ storageBase))
              [StepGCSBase; StepWebRoot; StepHookPath] Hp) as (_ & H1 & H2).
  split; [exact H1|]. rewrite H2. reflexivity.
Defined.

(** ** The file handle *)

(** C9. When [os.Open] succeeds and gives the handle [r], the handle is
    open once [os.Open] has returned and is no longer open when
    [readConfig] returns, on success and on a decoding error alike; among
    the file operations of the call there is exactly one close of [r], and
    it is the last of them. *)
Theorem handle_closed_once (w : World) (r : File) :
  fst (os_Open configFile w) = (Some r, None) →
  is_Some (open_files (snd (os_Open configFile w)) !! fd r)
  ∧ open_files (snd (readConfig w)) !! fd r = None
  ∧ ∃ ops, log (snd (readConfig w)) = (log w ++ ops)%list
           ∧ count_occ Event_eq_dec ops (EvClose (fd r)) = 1
           ∧ last ops = Some (EvClose (fd r)).
Proof.
  intros Hopen.
  assert (∃ contents, holds w contents ∧ fd r = lowestFree (open_files w))
    as (contents & Hfile & Hfd).
  { unfold holds. unfold os_Open in Hopen.
    destruct (files w !! configFile) as [[errno|contents]|]; cbn in Hopen;
      try discriminate.
    injection Hopen as <-. eauto. }
  rewrite Hfd. split.
  - unfold os_Open. rewrite Hfile. cbn. rewrite lookup_insert_eq. eauto.
  - assert (∃ e c, readConfig w = (e, returned w c)) as (e & c & ->).
    { destruct contents as [err|j].
      - rewrite (readConfig_broken w err Hfile). eauto.
      - rewrite (readConfig_value w j Hfile).
        destruct (Decoder.unmarshal j (config w)) as [c [e|]]; eauto. }
    cbn. split; [apply lowestFree_free|].
    exists [EvOpen configFile (lowestFree (open_files w));
            EvRead (lowestFree (open_files w));
            EvClose (lowestFree (open_files w))].
    split; [reflexivity|]. split; [|reflexivity].
    rewrite !count_occ_cons_neq by discriminate.
    rewrite count_occ_cons_eq by reflexivity. reflexivity.
Qed.

Lemma handle_closed_once_witness :
  let w := boot (onDisk (Value docIndexBool)) storageBase in
  fst (os_Open configFile w) = (Some (mkFile 3 configFile), None)
  ∧ is_Some (fst (readConfig w))
  ∧ open_files (snd (readConfig w)) !! 3 = None
  ∧ ∃ ops, log (snd (readConfig w)) = (log w ++ ops)%list
           ∧ count_occ Event_eq_dec ops (EvClose 3) = 1
           ∧ last ops = Some (EvClose 3).
Proof.
  cbv zeta. split; [reflexivity|]. split; [vm_compute; eauto|].
  apply (handle_closed_once (boot (onDisk (Value docIndexBool)) storageBase)
           (mkFile 3 configFile) eq_refl).
Defined.

(** ** Loading over a configuration already there *)

Lemma get_withDefaults (f : Field) (base : string) (c : appConfig) :
  (defaulted f = true → ¬ isZero (get f c)) →
  get f (withDefaults base c) = get f c.
Proof.
  destruct f; cbn; intros H; try reflexivity;
    match goal with
    | |- context [String.eqb ?a ""] =>
        destruct (String.eqb_spec a "") as [Heq|Hne];
        [exfalso; apply (H eq_refl); exact Heq | reflexivity]
    end.
Qed.

(** C10. The document is decoded into [config] as it stands.  A field
    for which the document has no member keeps the value it had before the
    call, whether the call succeeds or fails; only an empty [WebRoot],
    [HookPath] or [GCSBase] does not stay (a successful load gives it its
    default).  So loading [docFirst] and then [docSecond] leaves a
    configuration with the [WebRoot] and [Index] of the first, the
    [HookPath] of the second and the buckets of both. *)
Theorem absent_fields_retained (w : World) (j : json) (f : Field) :
  holds w (Value j) →
  omits f j →
  (defaulted f = true → ¬ isZero (get f (config w))) →
  get f (config (snd (readConfig w))) = get f (config w)
  ∧ config (snd (readConfig
                   (replaceFiles (onDisk (Value docSecond))
                      (snd (readConfig
                              (boot (onDisk (Value docFirst)) storageBase))))))
    = {| Redirects := None;
         Buckets := Some {[ "default" := "b1"; "x.com" := "b2" ]};
         WebRoot := "/app/";
         Index := "index.html";
         HookPath := "/-/notify";
         GCSBase := storageBase |}.
Proof.
  intros Hfile Hom Hnz. split; [|vm_compute; reflexivity].
  pose proof (omitted_field_kept f j (config w) Hom) as Hkept.
  rewrite (readConfig_value w j Hfile).
  destruct (Decoder.unmarshal j (config w)) as [c [e|]]; cbn in *.
  - exact Hkept.
  - rewrite get_withDefaults; [exact Hkept|]. rewrite Hkept. exact Hnz.
Qed.

Lemma absent_fields_retained_witness :
  let w := replaceFiles (onDisk (Value docSecond))
             (snd (readConfig (boot (onDisk (Value docFirst)) storageBase))) in
  holds w (Value docSecond)
  ∧ omits FWebRoot docSecond
  ∧ get FWebRoot (config w) = VString "/app/"
  ∧ get FWebRoot (config (snd (readConfig w))) = VString "/app/".
Proof.
  cbv zeta. split; [reflexivity|]. split; [reflexivity|].
  split; [vm_compute; reflexivity|].
  transitivity
    (get FWebRoot
       (config (replaceFiles (onDisk (Value docSecond))
                  (snd (readConfig (boot (onDisk (Value docFirst)) storageBase))))));
    [|vm_compute; reflexivity].
  apply (absent_fields_retained
           (replaceFiles (onDisk (Value docSecond))
              (snd (readConfig (boot (onDisk (Value docFirst)) storageBase))))
           docSecond FWebRoot).
  - reflexivity.
  - reflexivity.
  - intros _. vm_compute. discriminate.
Defined.

(** ** Round trip *)

Section RoundTrip.
Import Decoder.

Lemma findField_name (f : Field) : findField (name f) = Some f.
Proof. destruct f; vm_compute; reflexivity. Qed.

Lemma storeMembers_strings (l : list (string * string))
    (m : gmap string string) (e : error) :
  storeMembers ((λ kv, (kv.1, JString kv.2)) <$> l) m e
  = (foldl (λ m kv, <[kv.1 := kv.2]> m) m l, e).
Proof.
  revert m. induction l as [|[k v] l IH]; intros m; [reflexivity|].
  cbn. apply IH.
Qed.

Lemma foldl_insert_union (l : list (string * string)) (m0 : gmap string string) :
  NoDup l.*1 →
  foldl (λ m kv, <[kv.1 := kv.2]> m) m0 l = list_to_map l ∪ m0.
Proof.
  revert m0. induction l as [|[k v] l IH]; intros m0 Hnd.
  - symmetry. apply (left_id_L ∅ (∪)).
  - rewrite fmap_cons in Hnd. apply NoDup_cons in Hnd as [Hk Hnd].
    cbn [foldl fst snd]. rewrite (IH _ Hnd), list_to_map_cons.
    rewrite <- insert_union_l. symmetry. apply insert_union_r.
    apply not_elem_of_list_to_map_1, Hk.
Qed.

(** Valid text is written as it is. *)
Lemma validFrom_coerceFrom (s : string) (skip : nat) :
  UTF8.validFrom skip s = true → UTF8.coerceFrom skip s = s.
Proof.
  revert skip. induction s as [|b rest IH]; intros skip; [reflexivity|].
  cbn [UTF8.validFrom UTF8.coerceFrom]. destruct skip as [|k].
  - destruct (UTF8.runeLen (String b rest)) as [|k]; [discriminate|].
    intros H. rewrite (IH k H). reflexivity.
  - intros H. rewrite (IH k H). reflexivity.
Qed.

Lemma valid_coerce (s : string) : UTF8.valid s = true → UTF8.coerce s = s.
Proof. apply validFrom_coerceFrom. Qed.

Lemma valid_entries (l : list (string * string)) :
  forallb (λ kv, UTF8.valid kv.1 && UTF8.valid kv.2) l = true →
  (λ kv, (UTF8.coerce kv.1, JString (UTF8.coerce kv.2))) <$> l
  = (λ kv, (kv.1, JString kv.2)) <$> l.
Proof.
  induction l as [|[k v] l IH]; [reflexivity|].
  cbn [forallb fst snd]. intros H.
  apply andb_prop in H as [Hkv Hl]. apply andb_prop in Hkv as [Hk Hv].
  rewrite !fmap_cons, (IH Hl). cbn [fst snd].
  rewrite (valid_coerce k Hk), (valid_coerce v Hv). reflexivity.
Qed.

Lemma storeMap_encodeMap (v v0 : GoMap) :
  validMap v = true →
  storeMap (encodeMap v) v0 None = (mergedInto v v0, None).
Proof.
  intros Hvalid.
  destruct v as [m|]; [|reflexivity].
  assert (forallb (λ kv, UTF8.valid kv.1 && UTF8.valid kv.2)
            (merge_sort keyLe (map_to_list m)) = true) as Hsorted.
  { cbn [validMap] in Hvalid. rewrite forallb_forall in Hvalid |- *.
    intros kv Hkv. apply Hvalid.
    apply list_elem_of_In. apply list_elem_of_In in Hkv.
    rewrite <- (merge_sort_Permutation keyLe (map_to_list m)). exact Hkv. }
  unfold encodeMap, storeMap. rewrite (valid_entries _ Hsorted).
  rewrite storeMembers_strings.
  assert (merge_sort keyLe (map_to_list m) ≡ₚ map_to_list m) as Hperm
    by apply merge_sort_Permutation.
  assert (NoDup (merge_sort keyLe (map_to_list m)).*1) as Hnd.
  { rewrite Hperm. apply NoDup_fst_map_to_list. }
  rewrite (foldl_insert_union _ _ Hnd).
  rewrite (list_to_map_proper _ _ Hnd Hperm), list_to_map_to_list.
  destruct v0; reflexivity.
Qed.

Lemma mergedInto_noEntries (v v0 : GoMap) :
  noEntries v0 → mergedInto v v0 = v.
Proof.
  intros [-> | ->]; destruct v as [m|]; cbn; try reflexivity;
    f_equal; apply (right_id_L ∅ (∪)).
Qed.

(** Decoding the encoding of [c] over [c0]: the strings of [c], and the
    maps of [c] merged into those of [c0]. *)
Lemma unmarshal_encode (c c0 : appConfig) :
  validConfig c = true →
  unmarshal (encode c) c0
  = ({| Redirects := mergedInto (Redirects c) (Redirects c0);
        Buckets := mergedInto (Buckets c) (Buckets c0);
        WebRoot := WebRoot c; Index := Index c;
        HookPath := HookPath c; GCSBase := GCSBase c |}, None).
Proof.
  intros Hvalid. unfold validConfig in Hvalid.
  repeat (apply andb_prop in Hvalid as [Hvalid ?]).
  unfold encode, unmarshal.
  cbn [storeObject]. rewrite !findField_name.
  rewrite !valid_coerce by assumption.
  cbn [storeField]. rewrite storeMap_encodeMap by assumption.
  cbn [Redirects Buckets WebRoot Index HookPath GCSBase set_Redirects].
  rewrite storeMap_encodeMap by assumption. reflexivity.
Qed.

End RoundTrip.

(** C6, as stated, fails.  [cfgBadText] has every field set, and its
    [WebRoot] holds the byte 255, which is no UTF-8.  The encoder writes
    U+FFFD in its place, so loading the encoding at start-up succeeds and
    leaves a [WebRoot] that is not the one encoded, although that one was
    not empty. *)
Lemma round_trip_rewrites_invalid_text :
  let w := boot (onDisk (Value (encode cfgBadText))) storageBase in
  holds w (Value (encode cfgBadText))
  ∧ noEntries (Redirects (config w))
  ∧ noEntries (Buckets (config w))
  ∧ fst (readConfig w) = None
  ∧ WebRoot cfgBadText ≠ ""
  ∧ WebRoot (config (snd (readConfig w))) = "/" +:+ UTF8.replacement +:+ "/"
  ∧ WebRoot (config (snd (readConfig w))) ≠ WebRoot cfgBadText.
Proof.
  cbv zeta. split; [reflexivity|].
  split; [left; reflexivity|]. split; [left; reflexivity|].
  split; [vm_compute; reflexivity|]. split; [discriminate|].
  split; [vm_compute; reflexivity|]. vm_compute. discriminate.
Qed.

(** C6, amended.  Let the configuration file hold the encoding of a
    configuration [c] all of whose strings, map keys and map values are
    valid UTF-8, and let the maps of [config] have no entries before the
    load, as at start-up.  The load succeeds, and afterwards the two maps
    and [Index] are those of [c], and so is each of [WebRoot], [HookPath]
    and [GCSBase] that was not empty in [c]. *)
Theorem encode_load_round_trip (w : World) (c : appConfig) :
  holds w (Value (encode c)) →
  validConfig c = true →
  noEntries (Redirects (config w)) →
  noEntries (Buckets (config w)) →
  fst (readConfig w) = None
  ∧ Redirects (config (snd (readConfig w))) = Redirects c
  ∧ Buckets (config (snd (readConfig w))) = Buckets c
  ∧ Index (config (snd (readConfig w))) = Index c
  ∧ (WebRoot c ≠ "" → WebRoot (config (snd (readConfig w))) = WebRoot c)
  ∧ (HookPath c ≠ "" → HookPath (config (snd (readConfig w))) = HookPath c)
  ∧ (GCSBase c ≠ "" → GCSBase (config (snd (readConfig w))) = GCSBase c).
Proof.
  intros Hfile Hvalid Hr Hb.
  rewrite (readConfig_value w (encode c) Hfile), (unmarshal_encode c _ Hvalid).
  rewrite (mergedInto_noEntries _ _ Hr), (mergedInto_noEntries _ _ Hb).
  cbn. repeat split; intros Hne; apply String.eqb_neq in Hne;
    rewrite Hne; reflexivity.
Qed.

Lemma encode_load_round_trip_witness :
  let w := boot (onDisk (Value (encode cfgFull))) storageBase in
  holds w (Value (encode cfgFull))
  ∧ validConfig cfgFull = true
  ∧ noEntries (Redirects (config w))
  ∧ noEntries (Buckets (config w))
  ∧ fst (readConfig w) = None
  ∧ Redirects (config (snd (readConfig w))) = Redirects cfgFull
  ∧ Buckets (config (snd (readConfig w))) = Buckets cfgFull
  ∧ Index (config (snd (readConfig w))) = "index.html"
  ∧ WebRoot (config (snd (readConfig w))) = "/app/"
  ∧ HookPath (config (snd (readConfig w))) = "/-/notify"
  ∧ GCSBase (config (snd (readConfig w))) = "https://gcs.example.com".
Proof.
  cbv zeta.
  assert (noEntries (None : GoMap)) as Hnil by (left; reflexivity).
  destruct (encode_load_round_trip
              (boot (onDisk (Value (encode cfgFull))) storageBase)
              cfgFull eq_refl eq_refl Hnil Hnil)
    as (Hok & Hr & Hb & Hi & Hw & Hh & Hg).
  split; [reflexivity|]. split; [reflexivity|].
  split; [exact Hnil|]. split; [exact Hnil|].
  split; [exact Hok|]. split; [exact Hr|]. split; [exact Hb|].
  split; [exact Hi|].
  split; [apply Hw; discriminate|].
  split; [apply Hh; discriminate|].
  apply Hg; discriminate.
Defined.

(** * Further properties of [readConfig] *)

(** ** Every way [readConfig] can run *)

Lemma readConfig_run (w : World) :
  match files w !! configFile with
  | None => readConfig w = (Some (PathError "open" configFile ENOENT), w)
  | Some (Denied errno) =>
      readConfig w = (Some (PathError "open" configFile errno), w)
  | Some (Regular (Broken err)) =>
      readConfig w = (Some err, returned w (config w))
  | Some (Regular (Value j)) =>
      readConfig w
      = match Decoder.unmarshal j (config w) with
        | (c, Some e) => (Some e, returned w c)
        | (c, None) => (None, returned w (withDefaults (DefaultStorage_Base w) c))
        end
  end.
Proof.
  destruct (files w !! configFile) as [[errno|[err|j]]|] eqn:Hfile.
  - apply readConfig_not_opened. unfold os_Open. rewrite Hfile. reflexivity.
  - apply readConfig_broken, Hfile.
  - apply readConfig_value, Hfile.
  - apply readConfig_not_opened. unfold os_Open. rewrite Hfile. reflexivity.
Qed.

(** A nil error means the file was opened, held a value, and the value was
    stored without a mismatch. *)
Lemma success_inv (w : World) :
  fst (readConfig w) = None →
  ∃ j c, holds w (Value j)
         ∧ Decoder.unmarshal j (config w) = (c, None)
         ∧ snd (readConfig w)
           = returned w (withDefaults (DefaultStorage_Base w) c).
Proof.
  intros Hok. pose proof (readConfig_run w) as Hrun. unfold holds.
  destruct (files w !! configFile) as [[errno|[err|j]]|];
    try (rewrite Hrun in Hok; discriminate).
  destruct (Decoder.unmarshal j (config w)) as [c [e|]] eqn:Hun;
    rewrite Hrun in *; [discriminate|].
  exists j, c. auto.
Qed.

Section ErrorFacts.
Import Decoder.

Lemma storeString_typeError (j : json) (v : string) (e : error) :
  typeErrorOnly e → typeErrorOnly (storeString j v e).2.
Proof. destruct j, e; cbn; auto. Qed.

Lemma storeMembers_typeError (members : list (string * json))
    (m : gmap string string) (e : error) :
  typeErrorOnly e → typeErrorOnly (storeMembers members m e).2.
Proof.
  revert m e. induction members as [|[key j] rest IH]; intros m e He; [exact He|].
  cbn. pose proof (storeString_typeError j "" e He) as H.
  destruct (storeString j "" e) as [elem e']. apply IH, H.
Qed.

Lemma storeMap_typeError (j : json) (v : GoMap) (e : error) :
  typeErrorOnly e → typeErrorOnly (storeMap j v e).2.
Proof.
  intros He. destruct j; try (destruct e; cbn; auto; fail).
  cbn.
  pose proof (storeMembers_typeError members
                (match v with Some m => m | None => ∅ end) e He) as H.
  destruct (storeMembers members _ e). exact H.
Qed.

Lemma storeField_typeError (f : Field) (j : json) (c : appConfig) (e : error) :
  typeErrorOnly e → typeErrorOnly (storeField f j c e).2.
Proof.
  intros He. destruct f; unfold storeField;
    match goal with
    | |- context [storeMap ?j ?v ?e] =>
        pose proof (storeMap_typeError j v e He) as H; destruct (storeMap j v e)
    | |- context [storeString ?j ?v ?e] =>
        pose proof (storeString_typeError j v e He) as H;
        destruct (storeString j v e)
    end; exact H.
Qed.

Lemma storeObject_typeError (members : list (string * json)) (c : appConfig)
    (e : error) :
  typeErrorOnly e → typeErrorOnly (storeObject members c e).2.
Proof.
  revert c e. induction members as [|[key j] rest IH]; intros c e He; [exact He|].
  cbn. destruct (findField key) as [f|]; [|apply IH, He].
  pose proof (storeField_typeError f j c e He) as H.
  destruct (storeField f j c e) as [c' e']. apply IH, H.
Qed.

Lemma unmarshal_typeError (j : json) (c : appConfig) (e : Error) :
  (unmarshal j c).2 = Some e → ∃ v t, e = UnmarshalTypeError v t.
Proof.
  intros He.
  assert (typeErrorOnly (unmarshal j c).2) as H.
  { destruct j; cbn; auto. apply storeObject_typeError. exact I. }
  rewrite He in H. destruct e; cbn in H; try contradiction. eauto.
Qed.

End ErrorFacts.

(** ** When a load succeeds and how it fails *)

(** X1. [readConfig] returns a nil error exactly when the configuration
    file can be opened, holds a JSON value, and that value matches the
    shape of [appConfig]. *)
Theorem readConfig_succeeds_iff (w : World) :
  fst (readConfig w) = None ↔ ∃ j, holds w (Value j) ∧ conforms j = true.
Proof.
  split.
  - intros Hok. destruct (success_inv w Hok) as (j & c & Hfile & Hun & _).
    exists j. split; [exact Hfile|].
    apply (unmarshal_error j (config w)). rewrite Hun. reflexivity.
  - intros (j & Hfile & Hshape).
    apply (unmarshal_error j (config w)) in Hshape.
    rewrite (readConfig_value w j Hfile).
    destruct (Decoder.unmarshal j (config w)) as [c e]. cbn in Hshape.
    subst e. reflexivity.
Qed.

Lemma readConfig_succeeds_iff_witness :
  fst (readConfig (boot (onDisk (Value docWebRoot)) storageBase)) = None.
Proof.
  apply (readConfig_succeeds_iff (boot (onDisk (Value docWebRoot)) storageBase)).
  exists docWebRoot. split; reflexivity.
Defined.

(** X2. An error [readConfig] returns is of one of three kinds: the
    [PathError] of the failed open of [configFile], the process state being
    as before; the read or syntax error of the stream; or a type mismatch
    of a document that does not match the shape of [appConfig]. *)
Theorem readConfig_error_kinds (w : World) (e : Error) :
  fst (readConfig w) = Some e →
  (∃ errno, e = PathError "open" configFile errno
            ∧ (∀ contents, ¬ holds w contents)
            ∧ snd (readConfig w) = w)
  ∨ holds w (Broken e)
  ∨ (∃ j v t, holds w (Value j) ∧ conforms j = false
              ∧ e = UnmarshalTypeError v t).
Proof.
  intros Herr. pose proof (readConfig_run w) as Hrun. unfold holds.
  destruct (files w !! configFile) as [[errno|[err|j]]|] eqn:Hfile.
  - left. rewrite Hrun in *. injection Herr as <-. exists errno.
    repeat split. intros contents. discriminate.
  - right; left. rewrite Hrun in Herr. injection Herr as <-. reflexivity.
  - right; right.
    destruct (Decoder.unmarshal j (config w)) as [c [e'|]] eqn:Hun;
      rewrite Hrun in Herr; [|discriminate].
    injection Herr as <-.
    destruct (unmarshal_typeError j (config w) e') as (v & t & ->);
      [rewrite Hun; reflexivity|].
    exists j, v, t. repeat split.
    destruct (conforms j) eqn:Hshape; [|reflexivity].
    apply (unmarshal_error j (config w)) in Hshape.
    rewrite Hun in Hshape. discriminate.
  - left. rewrite Hrun in *. injection Herr as <-. exists ENOENT.
    repeat split. intros contents. discriminate.
Qed.

Lemma readConfig_error_kinds_witness :
  let w := boot (onDisk (Value docIndexBool)) storageBase in
  fst (readConfig w) = Some (UnmarshalTypeError "bool" TString)
  ∧ ((∃ errno, UnmarshalTypeError "bool" TString
               = PathError "open" configFile errno
               ∧ (∀ contents, ¬ holds w contents)
               ∧ snd (readConfig w) = w)
     ∨ holds w (Broken (UnmarshalTypeError "bool" TString))
     ∨ (∃ j v t, holds w (Value j) ∧ conforms j = false
                 ∧ UnmarshalTypeError "bool" TString = UnmarshalTypeError v t)).
Proof.
  cbv zeta. split; [reflexivity|].
  apply (readConfig_error_kinds
           (boot (onDisk (Value docIndexBool)) storageBase)
           (UnmarshalTypeError "bool" TString)).
  reflexivity.
Defined.

(** X3. After a load that returned a nil error, [config.WebRoot] and
    [config.HookPath] are not empty, whatever the document and whatever
    [config] held before; [config.GCSBase] is empty only if
    [weasel.DefaultStorage.Base] is. *)
Theorem loaded_fields_nonempty (w : World) :
  fst (readConfig w) = None →
  WebRoot (config (snd (readConfig w))) ≠ ""
  ∧ HookPath (config (snd (readConfig w))) ≠ ""
  ∧ (GCSBase (config (snd (readConfig w))) = "" → DefaultStorage_Base w = "").
Proof.
  intros Hok. destruct (success_inv w Hok) as (j & c & _ & _ & ->).
  cbn. repeat split.
  - destruct (String.eqb_spec (WebRoot c) ""); [discriminate|assumption].
  - destruct (String.eqb_spec (HookPath c) ""); [discriminate|assumption].
  - destruct (String.eqb_spec (GCSBase c) ""); [auto|contradiction].
Qed.

Lemma loaded_fields_nonempty_witness :
  let w := boot (onDisk (Value docDefaultBucket)) "" in
  fst (readConfig w) = None
  ∧ WebRoot (config (snd (readConfig w))) ≠ ""
  ∧ HookPath (config (snd (readConfig w))) ≠ ""
  ∧ GCSBase (config (snd (readConfig w))) = "".
Proof.
  cbv zeta.
  destruct (loaded_fields_nonempty (boot (onDisk (Value docDefaultBucket)) "")
              eq_refl) as (H1 & H2 & _).
  split; [reflexivity|]. split; [exact H1|]. split; [exact H2|]. reflexivity.
Defined.

(** ** What [readConfig] leaves alone *)

(** X4. [readConfig] leaks no descriptor: whatever descriptors are open
    before the call, exactly the same ones are open after it, on every
    path (failed open, decoding error, success).  The descriptor it uses
    in between is the lowest one that was free.  The file system and
    [weasel.DefaultStorage.Base] are not changed either. *)
Theorem readConfig_frame (w : World) :
  open_files (snd (readConfig w)) = open_files w
  ∧ (∀ r, fst (os_Open configFile w) = (Some r, None) →
          open_files w !! fd r = None
          ∧ ∀ k, (k < fd r)%nat → is_Some (open_files w !! k))
  ∧ files (snd (readConfig w)) = files w
  ∧ DefaultStorage_Base (snd (readConfig w)) = DefaultStorage_Base w.
Proof.
  split; [|split].
  - pose proof (readConfig_run w) as Hrun.
    destruct (files w !! configFile) as [[errno|[err|j]]|];
      [| |destruct (Decoder.unmarshal j (config w)) as [c [e|]]|];
      rewrite Hrun; reflexivity.
  - intros r Hopen. unfold os_Open in Hopen.
    destruct (files w !! configFile) as [[errno|contents]|]; cbn in Hopen;
      try discriminate.
    injection Hopen as <-. cbn [fd]. split.
    + apply lowestFree_free.
    + apply lowestFree_least.
  - pose proof (readConfig_run w) as Hrun.
    destruct (files w !! configFile) as [[errno|[err|j]]|];
      [| |destruct (Decoder.unmarshal j (config w)) as [c [e|]]|];
      rewrite Hrun; auto.
Qed.

(** A process with descriptor 3 free below descriptor 4. *)
Lemma readConfig_frame_witness :
  let w := {| files := onDisk (Value docIndexBool);
              open_files := <[4 := Broken EOF]> stdDescriptors;
              log := []; DefaultStorage_Base := storageBase;
              config := zeroConfig |} in
  fst (os_Open configFile w) = (Some (mkFile 3 configFile), None)
  ∧ is_Some (fst (readConfig w))
  ∧ open_files (snd (readConfig w)) = <[4 := Broken EOF]> stdDescriptors.
Proof.
  cbv zeta. split; [vm_compute; reflexivity|]. split; [vm_compute; eauto|].
  exact (proj1 (readConfig_frame
                  {| files := onDisk (Value docIndexBool);
                     open_files := <[4 := Broken EOF]> stdDescriptors;
                     log := []; DefaultStorage_Base := storageBase;
                     config := zeroConfig |})).
Defined.

(** ** Members that select no field, and the order of members *)

Lemma storeObject_known (members : list (string * json)) (c : appConfig)
    (e : error) :
  Decoder.storeObject (knownMembers members) c e
  = Decoder.storeObject members c e.
Proof.
  revert c e. induction members as [|[key j] rest IH]; intros c e; [reflexivity|].
  unfold knownMembers. rewrite filter_cons. cbn [fst Decoder.storeObject].
  destruct (findField key) as [f|] eqn:Hkey.
  - rewrite decide_True by eauto. cbn [Decoder.storeObject]. rewrite Hkey.
    destruct (Decoder.storeField f j c e) as [c' e']. apply IH.
  - rewrite decide_False by (intros [x Hx]; discriminate). apply IH.
Qed.

(** A struct is its six fields. *)
Lemma config_ext (c c' : appConfig) : (∀ f, get f c = get f c') → c = c'.
Proof.
  intros H. destruct c, c'.
  pose proof (H FRedirects) as H1. pose proof (H FBuckets) as H2.
  pose proof (H FWebRoot) as H3. pose proof (H FIndex) as H4.
  pose proof (H FHookPath) as H5. pose proof (H FGCSBase) as H6.
  cbn in *. congruence.
Qed.

(** Two runs from states that agree on the file's contents, on [config]
    and on the base URL agree on the error and on [config]. *)
Lemma readConfig_same_input (w w' : World) (j j' : json) :
  holds w (Value j) → holds w' (Value j') →
  Decoder.unmarshal j' (config w') = Decoder.unmarshal j (config w) →
  DefaultStorage_Base w' = DefaultStorage_Base w →
  fst (readConfig w') = fst (readConfig w)
  ∧ config (snd (readConfig w')) = config (snd (readConfig w)).
Proof.
  intros Hfile Hfile' Hun Hbase.
  rewrite (readConfig_value w j Hfile), (readConfig_value w' j' Hfile').
  rewrite Hun, Hbase.
  destruct (Decoder.unmarshal j (config w)) as [c [e|]]; auto.
Qed.

(** X5. Members whose key selects no field of [appConfig] are ignored: a
    document and the same document without those members load alike, with
    the same error and the same resulting [config]. *)
Theorem unknown_members_ignored (w w' : World) (members : list (string * json)) :
  holds w (Value (JObject members)) →
  holds w' (Value (JObject (knownMembers members))) →
  config w' = config w →
  DefaultStorage_Base w' = DefaultStorage_Base w →
  fst (readConfig w') = fst (readConfig w)
  ∧ config (snd (readConfig w')) = config (snd (readConfig w)).
Proof.
  intros Hfile Hfile' Hcfg Hbase.
  apply (readConfig_same_input w w' _ _ Hfile Hfile'); [|exact Hbase].
  cbn [Decoder.unmarshal]. rewrite Hcfg. apply storeObject_known.
Qed.

Lemma unknown_members_ignored_witness :
  let members := [("web_root", JString "/typo/"); ("index", JString "i.html");
                  ("comment", JNumber "1")] in
  let w := boot (onDisk (Value (JObject members))) storageBase in
  let w' := boot (onDisk (Value (JObject [("index", JString "i.html")])))
              storageBase in
  knownMembers members = [("index", JString "i.html")]
  ∧ fst (readConfig w') = fst (readConfig w)
  ∧ config (snd (readConfig w')) = config (snd (readConfig w))
  ∧ WebRoot (config (snd (readConfig w))) = "/".
Proof.
  cbv zeta. split; [vm_compute; reflexivity|].
  destruct (unknown_members_ignored
              (boot (onDisk (Value (JObject
                 [("web_root", JString "/typo/"); ("index", JString "i.html");
                  ("comment", JNumber "1")]))) storageBase)
              (boot (onDisk (Value (JObject [("index", JString "i.html")])))
                 storageBase)
              [("web_root", JString "/typo/"); ("index", JString "i.html");
               ("comment", JNumber "1")]
              eq_refl eq_refl eq_refl eq_refl) as [H1 H2].
  split; [exact H1|]. split; [exact H2|]. vm_compute; reflexivity.
Defined.

Lemma valuesFor_Permutation (f : Field) (ms ms' : list (string * json)) :
  ms ≡ₚ ms' → valuesFor f ms ≡ₚ valuesFor f ms'.
Proof.
  induction 1 as [|[k j] l1 l2 _ IH|[k1 j1] [k2 j2] l|l1 l2 l3 _ IH1 _ IH2].
  - reflexivity.
  - cbn. destruct (decide (findField k = Some f)); [constructor|]; exact IH.
  - cbn. destruct (decide (findField k1 = Some f)),
      (decide (findField k2 = Some f)); try reflexivity. apply perm_swap.
  - etransitivity; eassumption.
Qed.

Lemma short_Permutation {A : Type} (l l' : list A) :
  (List.length l ≤ 1)%nat → l ≡ₚ l' → l = l'.
Proof.
  intros Hlen Hp. destruct l as [|x [|y l]]; cbn in Hlen; [| |lia].
  - apply Permutation_nil_l in Hp. exact Hp.
  - apply Permutation_singleton_l in Hp. exact Hp.
Qed.

Lemma conforms_Permutation (ms ms' : list (string * json)) :
  ms ≡ₚ ms' → conforms (JObject ms) = conforms (JObject ms').
Proof.
  intros Hp. cbn.
  apply eq_true_iff_eq. rewrite !forallb_forall.
  split; intros H x Hx; apply H;
    [rewrite Hp|rewrite <- Hp]; exact Hx.
Qed.

(** X6. The order of the members of a document that matches the shape of
    [appConfig] does not matter as long as no field is selected by two of
    them: two such documents with the same members in different orders
    both load without error and leave the same [config]. *)
Theorem member_order_irrelevant (w w' : World) (ms ms' : list (string * json)) :
  holds w (Value (JObject ms)) →
  holds w' (Value (JObject ms')) →
  ms ≡ₚ ms' →
  (∀ f, (List.length (valuesFor f ms) ≤ 1)%nat) →
  conforms (JObject ms) = true →
  config w' = config w →
  DefaultStorage_Base w' = DefaultStorage_Base w →
  fst (readConfig w) = None
  ∧ fst (readConfig w') = None
  ∧ config (snd (readConfig w')) = config (snd (readConfig w)).
Proof.
  intros Hfile Hfile' Hp Hone Hshape Hcfg Hbase.
  assert ((Decoder.unmarshal (JObject ms') (config w')).1
          = (Decoder.unmarshal (JObject ms) (config w)).1) as Hsame.
  { apply config_ext. intros f. rewrite !get_unmarshal, Hcfg. cbn [supplied].
    rewrite <- (short_Permutation _ _ (Hone f) (valuesFor_Permutation f _ _ Hp)).
    reflexivity. }
  pose proof Hshape as Hshape'. rewrite (conforms_Permutation ms ms' Hp) in Hshape'.
  apply (unmarshal_error (JObject ms) (config w)) in Hshape.
  apply (unmarshal_error (JObject ms') (config w')) in Hshape'.
  rewrite (readConfig_value w _ Hfile), (readConfig_value w' _ Hfile').
  destruct (Decoder.unmarshal (JObject ms) (config w)) as [c e],
    (Decoder.unmarshal (JObject ms') (config w')) as [c' e'].
  cbn in Hsame, Hshape, Hshape'. subst c' e e'. rewrite Hbase. auto.
Qed.

Lemma member_order_irrelevant_witness :
  let ms := [("webroot", JString "/app/"); ("index", JString "i.html")] in
  let ms' := [("index", JString "i.html"); ("webroot", JString "/app/")] in
  let w := boot (onDisk (Value (JObject ms))) storageBase in
  let w' := boot (onDisk (Value (JObject ms'))) storageBase in
  ms ≡ₚ ms'
  ∧ (∀ f, (List.length (valuesFor f ms) ≤ 1)%nat)
  ∧ conforms (JObject ms) = true
  ∧ fst (readConfig w) = None
  ∧ fst (readConfig w') = None
  ∧ config (snd (readConfig w')) = config (snd (readConfig w)).
Proof.
  cbv zeta.
  assert (∀ f, (List.length
                  (valuesFor f [("webroot", JString "/app/");
                                ("index", JString "i.html")]) ≤ 1)%nat) as Hone.
  { intros f. destruct f; vm_compute; lia. }
  split; [apply perm_swap|]. split; [exact Hone|]. split; [reflexivity|].
  apply (member_order_irrelevant
           (boot (onDisk (Value (JObject [("webroot", JString "/app/");
                                          ("index", JString "i.html")])))
              storageBase)
           (boot (onDisk (Value (JObject [("index", JString "i.html");
                                          ("webroot", JString "/app/")])))
              storageBase)
           _ _ eq_refl eq_refl (perm_swap _ _ _) Hone eq_refl eq_refl eq_refl).
Defined.

(** ** The two maps *)

Section MapFacts.
Import Decoder.

Lemma storeMembers_entries (members : list (string * json))
    (m : gmap string string) (e : error) :
  (storeMembers members m e).1 = insertAll (entries members) m.
Proof.
  rewrite storeMembers_value.
  revert m. induction members as [|[key j] rest IH]; intros m; [reflexivity|].
  cbn [storeMembers]. unfold entries. rewrite fmap_cons. cbn [insertAll foldl fst snd].
  unfold elemOf. destruct (storeString j "" None) as [elem e'] eqn:Hs.
  rewrite storeMembers_value. apply IH.
Qed.

Lemma lookup_insertAll_entries (members : list (string * json))
    (m : gmap string string) (k : string) :
  insertAll (entries members) m !! k
  = match lastFor k members with
    | Some v => Some (elemOf v)
    | None => m !! k
    end.
Proof.
  revert m. induction members as [|[key j] rest IH]; intros m; [reflexivity|].
  unfold entries. rewrite fmap_cons. cbn [insertAll foldl fst snd lastFor].
  fold (entries rest). fold (insertAll (entries rest) (<[key:=elemOf j]> m)).
  rewrite IH. destruct (lastFor k rest); [reflexivity|].
  rewrite lookup_insert. destruct (decide (key = k)); reflexivity.
Qed.

(** A field that is a map, after one object was stored into it. *)
Lemma lookup_stored_object (f : Field) (j : json) (c : appConfig)
    (m0 : GoMap) (members : list (string * json)) (k : string) :
  get f c = VMap m0 →
  supplied f j = [JObject members] →
  lookupIn (get f (unmarshal j c).1) k
  = match lastFor k members with
    | Some v => Some (elemOf v)
    | None => m0 ≫= (.!! k)
    end.
Proof.
  intros Hget Hsup. rewrite get_unmarshal, Hget, Hsup. cbn [foldl assign].
  cbn [storeMap]. pose proof (storeMembers_entries members (default ∅ m0) None) as H.
  replace (match m0 with Some m => m | None => ∅ end) with (default ∅ m0)
    by (destruct m0; reflexivity).
  destruct (storeMembers members (default ∅ m0) None) as [m' e'].
  cbn in H. subst m'. cbn [fst lookupIn].
  rewrite lookup_insertAll_entries.
  destruct (lastFor k members); [reflexivity|].
  destruct m0; [reflexivity|]. cbn. apply lookup_empty.
Qed.

End MapFacts.

Lemma get_returned_map (f : Field) (base : string) (c : appConfig) (m : GoMap) :
  get f c = VMap m → get f (withDefaults base c) = VMap m.
Proof. destruct f; cbn; intros H; try discriminate; exact H. Qed.

(** X7. Let a successful load find exactly one member for a map field
    ([Redirects] or [Buckets]), an object.  Afterwards a key the object
    gives a string for maps to that string (the last one, if the key is
    repeated), a key it gives [null] for maps to the empty string, and any
    other key maps to what it mapped to before the load: the entries the
    map already had are kept, never cleared. *)
Theorem object_merges_into_map (w : World) (j : json) (f : Field)
    (m0 : GoMap) (members : list (string * json)) (k : string) :
  holds w (Value j) →
  fst (readConfig w) = None →
  get f (config w) = VMap m0 →
  supplied f j = [JObject members] →
  (∀ s, lastFor k members = Some (JString s) →
        lookupIn (get f (config (snd (readConfig w)))) k = Some s)
  ∧ (lastFor k members = Some JNull →
     lookupIn (get f (config (snd (readConfig w)))) k = Some "")
  ∧ (lastFor k members = None →
     lookupIn (get f (config (snd (readConfig w)))) k = m0 ≫= (.!! k)).
Proof.
  intros Hfile Hok Hget Hsup.
  pose proof (lookup_stored_object f j (config w) m0 members k Hget Hsup) as Hl.
  rewrite (loaded_config w j Hfile Hok).
  assert (get f (withDefaults (DefaultStorage_Base w)
                   (Decoder.unmarshal j (config w)).1)
          = get f (Decoder.unmarshal j (config w)).1) as ->.
  { destruct f; cbn in Hget |- *; try discriminate; reflexivity. }
  rewrite Hl. repeat split.
  - intros s ->. reflexivity.
  - intros ->. reflexivity.
  - intros ->. reflexivity.
Qed.

Lemma object_merges_into_map_witness :
  let w := replaceFiles (onDisk (Value docSecond))
             (snd (readConfig (boot (onDisk (Value docFirst)) storageBase))) in
  holds w (Value docSecond)
  ∧ fst (readConfig w) = None
  ∧ supplied FBuckets docSecond = [JObject [("x.com", JString "b2")]]
  ∧ lastFor "default" [("x.com", JString "b2")] = None
  ∧ lookupIn (get FBuckets (config (snd (readConfig w)))) "default" = Some "b1".
Proof.
  cbv zeta.
  destruct (object_merges_into_map
              (replaceFiles (onDisk (Value docSecond))
                 (snd (readConfig (boot (onDisk (Value docFirst)) storageBase))))
              docSecond FBuckets (Some {[ "default" := "b1" ]})
              [("x.com", JString "b2")] "default")
    as (_ & _ & H); try (vm_compute; reflexivity).
  split; [reflexivity|]. split; [vm_compute; reflexivity|].
  split; [vm_compute; reflexivity|]. split; [vm_compute; reflexivity|].
  rewrite H by (vm_compute; reflexivity). vm_compute; reflexivity.
Defined.

(** X8. A successful load of a document whose last member for a map field
    is [null] leaves that map nil, whatever it held before. *)
Theorem null_clears_map (w : World) (j : json) (f : Field) (m0 : GoMap) :
  holds w (Value j) →
  fst (readConfig w) = None →
  get f (config w) = VMap m0 →
  supplies f j JNull →
  get f (config (snd (readConfig w))) = VMap None.
Proof.
  intros Hfile Hok Hget Hsup.
  rewrite (loaded_config w j Hfile Hok).
  apply get_returned_map.
  rewrite get_unmarshal, Hget. unfold supplies in Hsup.
  destruct (supplied f j) as [|v l _] using rev_ind; [discriminate|].
  rewrite last_snoc in Hsup. injection Hsup as ->.
  rewrite foldl_app. cbn [foldl]. rewrite foldl_assign_map. reflexivity.
Qed.

Lemma null_clears_map_witness :
  let w := replaceFiles (onDisk (Value (JObject [("buckets", JNull)])))
             (snd (readConfig (boot (onDisk (Value docFirst)) storageBase))) in
  holds w (Value (JObject [("buckets", JNull)]))
  ∧ fst (readConfig w) = None
  ∧ get FBuckets (config w) = VMap (Some {[ "default" := "b1" ]})
  ∧ supplies FBuckets (JObject [("buckets", JNull)]) JNull
  ∧ get FBuckets (config (snd (readConfig w))) = VMap None.
Proof.
  cbv zeta. split; [reflexivity|]. split; [vm_compute; reflexivity|].
  split; [vm_compute; reflexivity|]. split; [vm_compute; reflexivity|].
  apply (null_clears_map
           (replaceFiles (onDisk (Value (JObject [("buckets", JNull)])))
              (snd (readConfig (boot (onDisk (Value docFirst)) storageBase))))
           (JObject [("buckets", JNull)]) FBuckets
           (Some {[ "default" := "b1" ]}));
    vm_compute; reflexivity.
Defined.

(** ** Loading the same file again *)

Section ReloadFacts.
Import Decoder.

(** The error of the decoder depends on the document only. *)
Lemma storeString_error_indep (j : json) (v v' : string) (e : error) :
  (storeString j v e).2 = (storeString j v' e).2.
Proof. destruct j; reflexivity. Qed.

Lemma storeMembers_error_indep (members : list (string * json))
    (m m' : gmap string string) (e : error) :
  (storeMembers members m e).2 = (storeMembers members m' e).2.
Proof.
  revert m m' e. induction members as [|[key j] rest IH]; intros m m' e;
    [reflexivity|].
  cbn. destruct (storeString j "" e) as [elem e']. apply IH.
Qed.

Lemma storeMap_error_indep (j : json) (v v' : GoMap) (e : error) :
  (storeMap j v e).2 = (storeMap j v' e).2.
Proof.
  destruct j; try reflexivity. cbn.
  pose proof (storeMembers_error_indep members
                (match v with Some m => m | None => ∅ end)
                (match v' with Some m => m | None => ∅ end) e) as H.
  destruct (storeMembers members (match v with Some m => m | None => ∅ end) e),
    (storeMembers members (match v' with Some m => m | None => ∅ end) e).
  exact H.
Qed.

Lemma storeField_error_indep (f : Field) (j : json) (c c' : appConfig)
    (e : error) :
  (storeField f j c e).2 = (storeField f j c' e).2.
Proof.
  destruct f; unfold storeField;
    match goal with
    | |- context [storeMap j (?p c) e] =>
        pose proof (storeMap_error_indep j (p c) (p c') e) as H;
        destruct (storeMap j (p c) e), (storeMap j (p c') e)
    | |- context [storeString j (?p c) e] =>
        pose proof (storeString_error_indep j (p c) (p c') e) as H;
        destruct (storeString j (p c) e), (storeString j (p c') e)
    end; exact H.
Qed.

Lemma storeObject_error_indep (members : list (string * json))
    (c c' : appConfig) (e : error) :
  (storeObject members c e).2 = (storeObject members c' e).2.
Proof.
  revert c c' e. induction members as [|[key j] rest IH]; intros c c' e;
    [reflexivity|].
  cbn. destruct (findField key) as [f|]; [|apply IH].
  pose proof (storeField_error_indep f j c c' e) as H.
  destruct (storeField f j c e) as [c1 e1], (storeField f j c' e) as [c2 e2].
  cbn in H. subst e2. apply IH.
Qed.

Lemma unmarshal_error_indep (j : json) (c c' : appConfig) :
  (unmarshal j c).2 = (unmarshal j c').2.
Proof. destruct j; try reflexivity. apply storeObject_error_indep. Qed.

(** Strings: the last string supplied wins, and without one the field
    stays. *)
Lemma foldl_assign_lastString (l : list json) (v : string) :
  foldl (λ v j, assign j v) (VString v) l = VString (default v (lastString l)).
Proof.
  revert v. induction l as [|j l IH]; intros v; [reflexivity|].
  cbn [foldl lastString]. cbn [assign]. rewrite IH.
  destruct (lastString l); [reflexivity|]. destruct j; reflexivity.
Qed.

(** Maps: a run of stores is one [MapAct]. *)
Lemma insertAll_app (l1 l2 : list (string * string)) (m : gmap string string) :
  insertAll (l1 ++ l2) m = insertAll l2 (insertAll l1 m).
Proof. unfold insertAll. apply foldl_app. Qed.

Lemma insertAll_union (l : list (string * string)) (m : gmap string string) :
  insertAll l m = list_to_map (reverse l) ∪ m.
Proof.
  revert m. induction l as [|[k v] l IH]; intros m.
  - cbn. symmetry. apply (left_id_L ∅ (∪)).
  - change (insertAll ((k, v) :: l) m) with (insertAll l (<[k:=v]> m)).
    rewrite IH, reverse_cons, list_to_map_app. cbn [list_to_map foldr fst snd].
    rewrite <- (assoc_L (∪)). f_equal.
    rewrite insert_empty. apply insert_union_singleton_l.
Qed.

Lemma insertAll_idem (l : list (string * string)) (m : gmap string string) :
  insertAll l (insertAll l m) = insertAll l m.
Proof.
  rewrite !insertAll_union, (assoc_L (∪)), (idemp_L (∪)). reflexivity.
Qed.

Lemma storeMap_act (a : MapAct) (j : json) (m : GoMap) :
  (storeMap j (applyAct a m) None).1 = applyAct (thenStore a j) m.
Proof.
  destruct j; try reflexivity. cbn [storeMap thenStore].
  replace (match applyAct a m with Some m1 => m1 | None => ∅ end)
    with (default ∅ (applyAct a m)) by (destruct (applyAct a m); reflexivity).
  pose proof (storeMembers_entries members (default ∅ (applyAct a m)) None) as H.
  destruct (storeMembers members (default ∅ (applyAct a m)) None) as [m' e'].
  cbn in H. subst m'. cbn [fst].
  destruct a; cbn [applyAct default]; try reflexivity.
  rewrite insertAll_app. reflexivity.
Qed.

Lemma foldl_assign_act (l : list json) (a : MapAct) (m : GoMap) :
  foldl (λ v j, assign j v) (VMap (applyAct a m)) l
  = VMap (applyAct (foldl thenStore a l) m).
Proof.
  revert a. induction l as [|j l IH]; intros a; [reflexivity|].
  cbn [foldl assign]. rewrite storeMap_act. apply IH.
Qed.

Lemma foldl_assign_keep (l : list json) (m : GoMap) :
  foldl (λ v j, assign j v) (VMap m) l
  = VMap (applyAct (foldl thenStore Keep l) m).
Proof. exact (foldl_assign_act l Keep m). Qed.

Lemma applyAct_idem (a : MapAct) (m : GoMap) :
  applyAct a (applyAct a m) = applyAct a m.
Proof.
  destruct a; cbn; try reflexivity. f_equal. apply insertAll_idem.
Qed.

(** Storing the same values twice is storing them once. *)
Lemma foldl_assign_idem (l : list json) (v : value) :
  foldl (λ v j, assign j v) (foldl (λ v j, assign j v) v l) l
  = foldl (λ v j, assign j v) v l.
Proof.
  destruct v as [s|m].
  - rewrite !foldl_assign_lastString. destruct (lastString l); reflexivity.
  - rewrite (foldl_assign_keep l m), foldl_assign_keep, applyAct_idem.
    reflexivity.
Qed.

Lemma get_withDefaults_fill (f : Field) (base : string) (c : appConfig) :
  get f (withDefaults base c) = fillValue base f (get f c).
Proof. destruct f; reflexivity. Qed.

(** The same with the defaulting in between. *)
Lemma foldl_assign_fill_idem (f : Field) (base : string) (c : appConfig)
    (l : list json) :
  fillValue base f
    (foldl (λ v j, assign j v)
       (fillValue base f (foldl (λ v j, assign j v) (get f c) l)) l)
  = fillValue base f (foldl (λ v j, assign j v) (get f c) l).
Proof.
  destruct f; cbn [get];
    try (unfold fillValue; cbn [defaultOf]; rewrite foldl_assign_idem;
         reflexivity);
    rewrite !foldl_assign_lastString; unfold fillValue; cbn [defaultOf];
    rewrite !foldl_assign_lastString;
    (destruct (lastString l) as [s|]; cbn [default]; [reflexivity|]);
    match goal with
    | |- context [String.eqb ?a ""] =>
        destruct (String.eqb a "") eqn:E1; [|rewrite E1; reflexivity]
    end;
    match goal with
    | |- context [String.eqb ?d ""] => destruct (String.eqb d ""); reflexivity
    end.
Qed.

Lemma unmarshal_idem (j : json) (c : appConfig) :
  unmarshal j (unmarshal j c).1 = unmarshal j c.
Proof.
  apply injective_projections.
  - apply config_ext. intros f. rewrite !get_unmarshal. apply foldl_assign_idem.
  - apply unmarshal_error_indep.
Qed.

Lemma unmarshal_fill_idem (j : json) (c : appConfig) (base : string) :
  withDefaults base (unmarshal j (withDefaults base (unmarshal j c).1)).1
  = withDefaults base (unmarshal j c).1.
Proof.
  apply config_ext. intros f.
  rewrite !get_withDefaults_fill, !get_unmarshal, get_withDefaults_fill,
    get_unmarshal.
  apply foldl_assign_fill_idem.
Qed.

End ReloadFacts.

(** X9. Calling [readConfig] again while the file is unchanged returns the
    same error and leaves [config] as the first call left it, on every
    path: a reload is idempotent. *)
Theorem reload_idempotent (w : World) :
  fst (readConfig (snd (readConfig w))) = fst (readConfig w)
  ∧ config (snd (readConfig (snd (readConfig w)))) = config (snd (readConfig w)).
Proof.
  pose proof (readConfig_run w) as Hrun.
  destruct (files w !! configFile) as [[errno|[err|j]]|] eqn:Hfile.
  - rewrite Hrun. cbn [snd]. rewrite Hrun. auto.
  - rewrite Hrun. cbn [snd fst].
    rewrite (readConfig_broken (returned w (config w)) err Hfile). auto.
  - destruct (Decoder.unmarshal j (config w)) as [c [e|]] eqn:Hun;
      rewrite Hrun; cbn [snd fst].
    + rewrite (readConfig_value (returned w c) j Hfile). cbn [config returned].
      pose proof (unmarshal_idem j (config w)) as Hid. rewrite Hun in Hid.
      cbn [fst] in Hid. rewrite Hid. auto.
    + rewrite (readConfig_value
                 (returned w (withDefaults (DefaultStorage_Base w) c)) j Hfile).
      cbn [config returned DefaultStorage_Base].
      pose proof (unmarshal_fill_idem j (config w) (DefaultStorage_Base w)) as Hid.
      pose proof (unmarshal_error_indep j
                    (withDefaults (DefaultStorage_Base w) c) (config w)) as He.
      rewrite Hun in Hid, He. cbn [fst snd] in Hid, He.
      destruct (Decoder.unmarshal j (withDefaults (DefaultStorage_Base w) c))
        as [c' e']. cbn [fst snd] in Hid, He. subst e'. cbn. auto.
  - rewrite Hrun. cbn [snd]. rewrite Hrun. auto.
Qed.

(** ** The defaulting statements, run again *)

Lemma withDefaults_idem (base : string) (c : appConfig) :
  withDefaults base (withDefaults base c) = withDefaults base c.
Proof.
  destruct c as [r b wr ix hp gb]. unfold withDefaults; cbn.
  destruct (String.eqb wr "") eqn:E1, (String.eqb hp "") eqn:E2,
    (String.eqb gb "") eqn:E3; cbn; rewrite ?E1, ?E2, ?E3;
    try reflexivity; destruct (String.eqb base ""); reflexivity.
Qed.

(** X10. Running the three defaulting statements a second time, in any
    order, changes nothing: a field they have filled is not touched again,
    also when the default itself is the empty string. *)
Theorem defaults_idempotent (w : World) (l l' : list Step) :
  l ≡ₚ implemented →
  l' ≡ₚ implemented →
  runSteps l' (snd (runSteps l w)) = runSteps l w.
Proof.
  intros Hl Hl'.
  rewrite (runSteps_Permutation l implemented Hl w).
  rewrite (runSteps_Permutation l' implemented Hl').
  assert (∀ w0, runSteps implemented w0
                = (tt, set_config
                         (withDefaults (DefaultStorage_Base w0) (config w0)) w0))
    as Hrun by (intros w0; apply (fill_steps tt w0)).
  rewrite (Hrun w). cbn [snd]. rewrite Hrun.
  unfold set_config; cbn. rewrite withDefaults_idem. reflexivity.
Qed.

Lemma defaults_idempotent_witness :
  let w := boot ∅ "" in
  implemented ≡ₚ implemented
  ∧ [StepHookPath; StepWebRoot; StepGCSBase] ≡ₚ implemented
  ∧ runSteps [StepHookPath; StepWebRoot; StepGCSBase]
      (snd (runSteps implemented w))
    = runSteps implemented w
  ∧ GCSBase (config (snd (runSteps implemented w))) = "".
Proof.
  cbv zeta.
  assert ([StepHookPath; StepWebRoot; StepGCSBase] ≡ₚ implemented) as Hp
    by apply perm_swap.
  split; [reflexivity|]. split; [exact Hp|].
  split; [|reflexivity].
  apply (defaults_idempotent (boot ∅ "") implemented
           [StepHookPath; StepWebRoot; StepGCSBase]); [reflexivity|exact Hp].
Defined.

(** ** Which field a key selects *)

Lemma equalFoldRight_head (sb a : ascii) (s' rest : string) :
  Ascii.eqb (Fold.upper sb) "S" = false →
  Ascii.eqb (Fold.upper sb) "K" = false →
  Fold.equalFoldRight (String sb s') (String a rest) = true →
  Fold.upper a = Fold.upper sb.
Proof.
  intros HS HK. cbn [Fold.equalFoldRight]. rewrite HS, HK.
  destruct (Fold.nonASCII a); cbn [negb]; [discriminate|].
  destruct (Ascii.eqb_spec sb a) as [->|_]; [reflexivity|].
  destruct (Fold.isUpperLetter (Fold.upper sb)); [|discriminate].
  destruct (Ascii.eqb_spec (Fold.upper sb) (Fold.upper a)) as [->|_];
    [reflexivity|discriminate].
Qed.

Lemma simpleLetterEqualFold_head (sb a : ascii) (s' rest : string) :
  Fold.simpleLetterEqualFold (String sb s') (String a rest) = true →
  Fold.upper a = Fold.upper sb.
Proof.
  cbn [Fold.simpleLetterEqualFold].
  destruct (Ascii.eqb_spec (Fold.upper sb) (Fold.upper a)) as [->|_];
    [reflexivity|discriminate].
Qed.

(** A key that folds to a field's name starts with the name's first
    letter, in either case. *)
Lemma equalFold_initial (f : Field) (key : string) :
  equalFold f key = true →
  ∃ a rest, key = String a rest ∧ Fold.upper a = initial f.
Proof.
  destruct key as [|a rest]; [destruct f; vm_compute; discriminate|].
  intros H. exists a, rest. split; [reflexivity|].
  destruct f; unfold equalFold in H.
  - change (Fold.foldFunc (name FRedirects)) with Fold.equalFoldRight in H.
    apply equalFoldRight_head in H; [exact H|reflexivity|reflexivity].
  - change (Fold.foldFunc (name FBuckets)) with Fold.equalFoldRight in H.
    apply equalFoldRight_head in H; [exact H|reflexivity|reflexivity].
  - change (Fold.foldFunc (name FWebRoot)) with Fold.simpleLetterEqualFold in H.
    apply simpleLetterEqualFold_head in H. exact H.
  - change (Fold.foldFunc (name FIndex)) with Fold.simpleLetterEqualFold in H.
    apply simpleLetterEqualFold_head in H. exact H.
  - change (Fold.foldFunc (name FHookPath)) with Fold.equalFoldRight in H.
    apply equalFoldRight_head in H; [exact H|reflexivity|reflexivity].
  - change (Fold.foldFunc (name FGCSBase)) with Fold.equalFoldRight in H.
    apply equalFoldRight_head in H; [exact H|reflexivity|reflexivity].
Qed.

Lemma equalFold_unique (f g : Field) (key : string) :
  equalFold f key = true → equalFold g key = true → f = g.
Proof.
  intros Hf Hg.
  destruct (equalFold_initial f key Hf) as (a & rest & -> & Ha).
  destruct (equalFold_initial g _ Hg) as (a' & rest' & [= <- <-] & Ha').
  rewrite Ha in Ha'. destruct f, g; try reflexivity; vm_compute in Ha'; discriminate.
Qed.

Lemma equalFold_name (f : Field) : equalFold f (name f) = true.
Proof. destruct f; vm_compute; reflexivity. Qed.

Lemma searchFields_found (fs : list Field) (key : string) (acc : option Field)
    (f : Field) :
  searchFields fs key acc = Some f →
  acc = Some f ∨ (f ∈ fs ∧ equalFold f key = true).
Proof.
  revert acc. induction fs as [|ff rest IH]; intros acc; cbn [searchFields].
  - auto.
  - destruct (String.eqb_spec (name ff) key) as [<-|_].
    + intros [= <-]. right. split; [left|apply equalFold_name].
    + intros H. apply IH in H as [H|[Hin Hfold]].
      * destruct acc as [g|]; [left; exact H|].
        destruct (equalFold ff key) eqn:E; [|discriminate].
        injection H as <-. right. split; [left|exact E].
      * right. split; [right; exact Hin|exact Hfold].
Qed.

Lemma searchFields_some (fs : list Field) (key : string) (acc : option Field)
    (f : Field) :
  f ∈ fs → equalFold f key = true → is_Some (searchFields fs key acc).
Proof.
  revert acc. induction fs as [|ff rest IH]; intros acc Hin Hfold.
  - inversion Hin.
  - cbn [searchFields]. destruct (String.eqb (name ff) key); [eauto|].
    apply elem_of_cons in Hin as [->|Hin].
    + rewrite Hfold. clear IH.
      assert (∀ acc, is_Some acc → is_Some (searchFields rest key acc)) as Hacc.
      { clear. induction rest as [|g rest IH]; intros acc Hs; [exact Hs|].
        cbn [searchFields]. destruct (String.eqb (name g) key); [eauto|].
        apply IH. destruct acc; [exact Hs|]. destruct Hs; discriminate. }
      apply Hacc. destruct acc; eauto.
    + apply IH; assumption.
Qed.

(** X11. A key of the document selects a field exactly when it equals the
    field's JSON name under the decoder's case folding.  The six names of
    [appConfig] differ in their first letter, so no key selects two fields
    and the order in which the fields are searched does not matter. *)
Theorem key_selects_iff (key : string) (f : Field) :
  findField key = Some f ↔ equalFold f key = true.
Proof.
  unfold findField. split.
  - intros H. apply searchFields_found in H as [H|[_ H]]; [discriminate|exact H].
  - intros Hfold.
    assert (f ∈ fields) as Hin by (destruct f; unfold fields; set_solver).
    destruct (searchFields_some fields key None f Hin Hfold) as [g Hg].
    rewrite Hg. f_equal.
    apply searchFields_found in Hg as [Hg|[_ Hg]]; [discriminate|].
    apply (equalFold_unique g f key Hg Hfold).
Qed.

Lemma key_selects_iff_witness :
  equalFold FWebRoot "WebRoot" = true ∧ findField "WebRoot" = Some FWebRoot.
Proof.
  split; [vm_compute; reflexivity|].
  apply (key_selects_iff "WebRoot" FWebRoot). vm_compute; reflexivity.
Defined.
